(** * Perceval GitHub backend: paginated fetch, cache queue and replay

    A shallow embedding of [perceval/backends/github.py].  Python
    generators are state machines whose states are the program points
    at which the generator can be suspended; exceptions are values of
    [exn]; the network, the logger and the cache queue are threaded
    through an explicit [World].

    Strings are Rocq strings of 8-bit characters: header values (and so
    the link URLs) are Latin-1 text, response bodies are opaque. *)

From stdpp Require Import gmap strings list.
From Stdlib Require Import ZArith Ascii String DecimalString Lia.
From Stdlib Require DecimalPos.

Open Scope string_scope.
Open Scope Z_scope.

(** ** Python values and built-ins used by the backend *)

Module Py.

(** The exceptions the module can raise or let through. *)
Inductive exn : Type :=
| KeyError (key : string)
| IndexError
| ValueError
| TypeError
| CacheError (cause : string)
| RequestException (msg : string).

(** [bool(s)] for a [str]: only the empty string is false. *)
Definition truthy (s : string) : bool :=
  match s with
  | EmptyString => false
  | String _ _ => true
  end.

(** [bool(x)] for a value that is [None] or a [str]. *)
Definition truthy_opt (o : option string) : bool :=
  match o with
  | None => false
  | Some s => truthy s
  end.

(** [s.startswith(p)]. *)
Fixpoint starts_with (p s : string) : bool :=
  match p, s with
  | EmptyString, _ => true
  | String a p', String b s' => Ascii.eqb a b && starts_with p' s'
  | String _ _, EmptyString => false
  end.

(** [s[n:]]. *)
Fixpoint drop_chars (n : nat) (s : string) : string :=
  match n, s with
  | O, _ => s
  | S n', String _ s' => drop_chars n' s'
  | S _, EmptyString => EmptyString
  end.

(** The first occurrence of [sep] in [s], scanning from the left: the
    text before it and the text after it ([str.partition] without the
    separator), or [None] when [sep] does not occur. *)
Fixpoint cut (sep s : string) : option (string * string) :=
  if starts_with sep s then Some (EmptyString, drop_chars (String.length sep) s)
  else
    match s with
    | EmptyString => None
    | String c s' =>
        match cut sep s' with
        | Some (a, b) => Some (String c a, b)
        | None => None
        end
    end.

(** [s.split(sep)] for a non-empty [sep]: cut at every occurrence, left
    to right, occurrences not overlapping.  Each cut removes at least
    one character, so [length s] rounds are enough. *)
Fixpoint split_rounds (n : nat) (sep s : string) : list string :=
  match n with
  | O => [s]
  | S n' =>
      match cut sep s with
      | None => [s]
      | Some (a, b) => a :: split_rounds n' sep b
      end
  end.

Definition split (sep s : string) : list string :=
  split_rounds (String.length s) sep s.

(** [l[i]] on a list: [IndexError] out of range. *)
Definition index {A : Type} (l : list A) (i : nat) : exn + A :=
  match l !! i with
  | Some x => inr x
  | None => inl IndexError
  end.

Definition is_digit (c : ascii) : bool :=
  let n := nat_of_ascii c in (48 <=? n)%nat && (n <=? 57)%nat.

Definition digit_value (c : ascii) : Z := Z.of_nat (nat_of_ascii c) - 48.

(** The white space [int()] strips, among the characters of Latin-1. *)
Definition is_space (c : ascii) : bool :=
  let n := nat_of_ascii c in
  ((9 <=? n)%nat && (n <=? 13)%nat) || ((28 <=? n)%nat && (n <=? 32)%nat)
  || (n =? 133)%nat || (n =? 160)%nat.

Fixpoint lstrip (l : list ascii) : list ascii :=
  match l with
  | [] => []
  | c :: l' => if is_space c then lstrip l' else l
  end.

Definition strip (l : list ascii) : list ascii := rev (lstrip (rev (lstrip l))).

(** Digits with single underscores between them; [sep_before] says that
    the previous character was not a digit, so that neither an
    underscore nor the end may follow. *)
Fixpoint digits (acc : Z) (sep_before : bool) (l : list ascii) : option Z :=
  match l with
  | [] => if sep_before then None else Some acc
  | c :: l' =>
      if is_digit c then digits (10 * acc + digit_value c) false l'
      else if Ascii.eqb c "_" && negb sep_before then digits acc true l'
      else None
  end.

(** [sys.int_info.default_max_str_digits]: since CPython 3.11 (and the
    security releases of 3.7 to 3.10) [int()] refuses a numeral of more
    decimal digits than this, unless the interpreter is told otherwise. *)
Definition max_str_digits : Z := 4300.

(** The decimal digits of a numeral; underscores do not count. *)
Fixpoint count_digits (l : list ascii) : nat :=
  match l with
  | [] => 0%nat
  | c :: l' => ((if is_digit c then 1 else 0) + count_digits l')%nat
  end.

(** The numeral proper, after the sign: refused when it is too long. *)
Definition numeral (body : list ascii) : option Z :=
  if Z.of_nat (count_digits body) <=? max_str_digits then digits 0 true body
  else None.

(** [int(s)] in base ten: white space around, an optional sign, then the
    digits.  [None] stands for the [ValueError]. *)
Definition int (s : string) : option Z :=
  match strip (list_ascii_of_string s) with
  | "+"%char :: body => numeral body
  | "-"%char :: body => Z.opp <$> numeral body
  | body => numeral body
  end.

(** [str(n)] and ["%i" % n] for an [int]. *)
Definition str (n : Z) : string := NilZero.string_of_int (Z.to_int n).

(** [n] in decimal, padded with zeros on the left to [w] characters
    (["%0wd" % n] for [n >= 0]). *)
Definition zfill (w : nat) (n : Z) : string :=
  let s := str n in
  string_of_list_ascii (replicate (w - String.length s) "0"%char) +:+ s.

(** A [datetime.datetime]; [utcoffset] is [None] for a naive value and
    the offset east of UTC in minutes for an aware one. *)
Record datetime : Type := {
  year : Z; month : Z; day : Z;
  hour : Z; minute : Z; second : Z; microsecond : Z;
  utcoffset : option Z
}.

(** [d.isoformat()]: [YYYY-MM-DDTHH:MM:SS[.ffffff][+HH:MM]]. *)
Definition isoformat (d : datetime) : string :=
  zfill 4 (year d) +:+ "-" +:+ zfill 2 (month d) +:+ "-" +:+ zfill 2 (day d)
  +:+ "T" +:+ zfill 2 (hour d) +:+ ":" +:+ zfill 2 (minute d)
  +:+ ":" +:+ zfill 2 (second d)
  +:+ (if microsecond d =? 0 then "" else "." +:+ zfill 6 (microsecond d))
  +:+ match utcoffset d with
      | None => ""
      | Some off =>
          (if off <? 0 then "-" else "+")
          +:+ zfill 2 (Z.abs off / 60) +:+ ":" +:+ zfill 2 (Z.abs off mod 60)
      end.

(** [s.lower()] on ASCII letters, as header names are compared. *)
Definition lower_char (c : ascii) : ascii :=
  let n := nat_of_ascii c in
  if (65 <=? n)%nat && (n <=? 90)%nat then ascii_of_nat (n + 32) else c.

Fixpoint lower (s : string) : string :=
  match s with
  | EmptyString => EmptyString
  | String c s' => String (lower_char c) (lower s')
  end.

End Py.

Import Py.

(** ** The program state

    The network is an oracle: [net n req] is what the [n]-th call of
    [requests.get] returns when it sends [req] (a response, or the
    exception the transport raises).  [trace] records, in order, what
    the program did to the outside: log lines, requests and the calls
    on the cache queue.  [cache] and [cache_queue] are the two fields
    the [Backend] base class keeps on the backend object. *)

Record Request : Type := {
  url : string;
  verify : bool;
  req_headers : gmap string string
}.

(** What the code reads of a [requests.Response]: [headers] is keyed by
    the lower-cased header name (the dictionary is case-insensitive),
    [links] maps a relation to the [url] of its link. *)
Record Response : Type := {
  text : string;
  headers : gmap string string;
  links : gmap string string
}.

Inductive event : Type :=
| EvDebug (msg : string)
| EvGet (req : Request)
| EvPurge
| EvPush (raw : string)
| EvFlush.

Record State : Type := {
  net : nat → Request → exn + Response;
  clock : nat;
  trace : list event;
  cache : option (list string);
  cache_queue : list string
}.

Definition emit (e : event) (w : State) : State :=
  {| net := net w; clock := clock w; trace := trace w ++ [e];
     cache := cache w; cache_queue := cache_queue w |}.

(** ** Statements that may raise: a state and exception monad *)

Definition M (A : Type) : Type := State → (exn + A) * State.

Definition ret {A : Type} (a : A) : M A := λ w, (inr a, w).

Definition raise {A : Type} (e : exn) : M A := λ w, (inl e, w).

Definition bind {A B : Type} (m : M A) (k : A → M B) : M B :=
  λ w, match m w with
       | (inl e, w') => (inl e, w')
       | (inr a, w') => k a w'
       end.

#[export] Instance M_ret : MRet M := @ret.
#[export] Instance M_bind : MBind M := λ A B k m, bind m k.

(** [logger.debug(msg)]. *)
Definition logger_debug (msg : string) : M unit :=
  λ w, (inr tt, emit (EvDebug msg) w).

(** [requests.get(url, verify=False, headers=h)]. *)
Definition requests_get (req : Request) : M Response :=
  λ w, (net w (clock w) req,
        {| net := net w; clock := S (clock w); trace := trace w ++ [EvGet req];
           cache := cache w; cache_queue := cache_queue w |}).

(** [d[key]] on a dictionary: [KeyError] when the key is absent. *)
Definition getitem (d : gmap string string) (key : string) : M string :=
  match d !! key with
  | Some v => ret v
  | None => raise (KeyError key)
  end.

(** [r.headers[name]]: the lookup ignores the case of [name]. *)
Definition header (r : Response) (name : string) : M string :=
  getitem (headers r) (lower name).

Definition lift {A : Type} (x : exn + A) : M A :=
  match x with
  | inl e => raise e
  | inr a => ret a
  end.

(** ["Page: %i/%i" % (page, last_page)]: [%i] refuses [None]. *)
Definition format_page (page : Z) (last_page : option Z) : M string :=
  match last_page with
  | Some n => ret ("Page: " +:+ str page +:+ "/" +:+ str n)
  | None => raise TypeError
  end.

(** ** Generators

    A generator is a state and a step function.  A step either hands a
    value to the consumer ([Yield]), ends the iteration, raises, or is
    an internal move after which the consumer is still waiting
    ([Continue]). *)

Inductive signal (A : Type) : Type :=
| Yield (a : A)
| StopIteration
| Raise (e : exn)
| Continue.
Arguments Yield {A} a.
Arguments StopIteration {A}.
Arguments Raise {A} e.
Arguments Continue {A}.

Inductive status : Type :=
| Running
| Stopped
| Raised (e : exn).

Section Run.
Context {G A : Type} (step : G → State → signal A * G * State).

(** The consumer drives the generator for at most [n] steps: the
    values it received, how the iteration stands, the generator and
    the state reached. *)
Fixpoint run (n : nat) (g : G) (w : State) : list A * status * G * State :=
  match n with
  | O => ([], Running, g, w)
  | S n' =>
      match step g w with
      | (Yield a, g', w') =>
          let '(ys, st, g'', w'') := run n' g' w' in (a :: ys, st, g'', w'')
      | (StopIteration, g', w') => ([], Stopped, g', w')
      | (Raise e, g', w') => ([], Raised e, g', w')
      | (Continue, g', w') => run n' g' w'
      end
  end.
End Run.

(** ** GitHubClient *)

Record GitHubClient : Type := {
  owner : string;
  repository : string;
  auth_token : string;
  base_url : option string
}.

Definition _get_url (self : GitHubClient) : string :=
  let github_api := "https://api.github.com" in
  let github_api :=
    if truthy_opt (base_url self) then default github_api (base_url self)
    else github_api in
  let github_api_repos := github_api +:+ "/repos" in
  let url_repo := github_api_repos +:+ "/" +:+ owner self +:+ "/" +:+ repository self in
  url_repo.

(** A [datetime] is always true, so [if startdate] only tests for [None]. *)
Definition _get_issues_url (self : GitHubClient) (startdate : option datetime) : string :=
  let github_per_page := 30 in
  let url_issues := _get_url self +:+ "/issues" in
  let url_params := "?per_page=" +:+ str github_per_page in
  let url_params := url_params +:+ "&state=all" in
  let url_params := url_params +:+ "&sort=updated" in
  let url_params := url_params +:+ "&direction=asc" in
  let url_params :=
    match startdate with
    | Some startdate =>
        let startdate := isoformat startdate in
        url_params +:+ "&since=" +:+ startdate
    | None => url_params
    end in
  let url := url_issues +:+ url_params in
  url.

(** The request of lines 146-147 and 166-167. *)
Definition get_request (self : GitHubClient) (url_next : string) : Request :=
  {| url := url_next; verify := false;
     req_headers := {[ "Authorization" := "token " +:+ auth_token self ]} |}.

(** *** [get_issues]

    The generator is suspended either before its first statement or at
    the [yield] of line 159, where the frame holds the last response and
    the two page counters ([url_next] is dead there and [issues] is
    [r.text]). *)

Inductive get_issues_state : Type :=
| GI_created (start : option datetime)
| GI_suspended (r : Response) (page : Z) (last_page : option Z)
| GI_finished.

(** Calling the generator function runs none of its body. *)
Definition get_issues (self : GitHubClient) (start : option datetime) : M get_issues_state :=
  ret (GI_created start).

(** Lines 154-155: the page count is the text between the first
    [&page=] of the link and the next [&]. *)
Definition last_page_of (last_url : string) : exn + Z :=
  match index (split "&page=" last_url) 1 with
  | inl e => inl e
  | inr last_page =>
      match index (split "&" last_page) 0 with
      | inl e => inl e
      | inr last_page =>
          match int last_page with
          | Some last_page => inr last_page
          | None => inl ValueError
          end
      end
  end.

(** Lines 152-156. *)
Definition read_last_page (r : Response) (page : Z) : M (option Z) :=
  match links r !! "last" with
  | Some last_url =>
      last_page ← lift (last_page_of last_url);
      msg ← format_page page (Some last_page);
      logger_debug msg;;
      ret (Some last_page)
  | None => ret None
  end.

(** Lines 141-156: from the first statement to the head of the loop. *)
Definition get_issues_first (self : GitHubClient) (start : option datetime)
  : M (option string * Response * Z * option Z) :=
  let page := 0 in
  let url_next := _get_issues_url self start in
  logger_debug ("Get GitHub issues from " +:+ url_next);;
  r ← requests_get (get_request self url_next);
  let issues := text r in
  let page := page + 1 in
  limit ← header r "X-RateLimit-Remaining";
  logger_debug ("Rate limit: " +:+ limit);;
  last_page ← read_last_page r page;
  ret (Some issues, r, page, last_page).

(** Lines 161-172: from the statement after the [yield] back to the head
    of the loop. *)
Definition get_issues_resume (self : GitHubClient) (r : Response) (page : Z)
    (last_page : option Z) : M (option string * Response * Z * option Z) :=
  let issues := None in
  match links r !! "next" with
  | Some url_next =>
      r ← requests_get (get_request self url_next);
      let page := page + 1 in
      let issues := text r in
      msg ← format_page page last_page;
      logger_debug msg;;
      limit ← header r "X-RateLimit-Remaining";
      logger_debug ("Rate limit: " +:+ limit);;
      ret (Some issues, r, page, last_page)
  | None => ret (issues, r, page, last_page)
  end.

(** Lines 158-159: [while issues: yield issues]. *)
Definition get_issues_loop (frame : option string * Response * Z * option Z)
  : signal string * get_issues_state :=
  let '(issues, r, page, last_page) := frame in
  if truthy_opt issues then (Yield (default "" issues), GI_suspended r page last_page)
  else (StopIteration, GI_finished).

(** One [next()] on the generator. *)
Definition get_issues_next (self : GitHubClient) (g : get_issues_state) (w : State)
  : signal string * get_issues_state * State :=
  match g with
  | GI_created start =>
      match get_issues_first self start w with
      | (inr frame, w') => (get_issues_loop frame, w')
      | (inl e, w') => (Raise e, GI_finished, w')
      end
  | GI_suspended r page last_page =>
      match get_issues_resume self r page last_page w with
      | (inr frame, w') => (get_issues_loop frame, w')
      | (inl e, w') => (Raise e, GI_finished, w')
      end
  | GI_finished => (StopIteration, GI_finished, w)
  end.

(** ** The backend *)

Record GitHub : Type := {
  gh_owner : string;
  gh_repository : string;
  client : GitHubClient
}.

(** [GitHub.__init__] without the call to the base class, which sets the
    two cache fields of the state. *)
Definition GitHub_init (owner repository token : string) (base_url : option string) : GitHub :=
  {| gh_owner := owner; gh_repository := repository;
     client := {| owner := owner; repository := repository;
                  auth_token := token; base_url := base_url |} |}.

(** Modelled from the spec: [Backend._push_cache_queue], defined in
    [perceval/backend.py].  Enqueue appends one page to the in-memory
    buffer. *)
Definition _push_cache_queue (item : string) : M unit :=
  λ w, (inr tt,
        emit (EvPush item)
          {| net := net w; clock := clock w; trace := trace w;
             cache := cache w; cache_queue := cache_queue w ++ [item] |}).

(** Modelled from the spec: [Backend._flush_cache_queue], defined in
    [perceval/backend.py], and the store's append.  Flush appends every
    buffered page to the store, in buffer order, then clears the buffer.
    The spec words it for a backend that has a store; without one there
    is nothing to append to. *)
Definition _flush_cache_queue : M unit :=
  λ w, (inr tt,
        emit EvFlush
          {| net := net w; clock := clock w; trace := trace w;
             cache := (λ entries, (entries ++ cache_queue w)%list) <$> cache w;
             cache_queue := [] |}).

(** Modelled from the spec: [Backend._purge_cache_queue], defined in
    [perceval/backend.py].  Purge discards the buffered pages without
    writing them. *)
Definition _purge_cache_queue : M unit :=
  λ w, (inr tt,
        emit EvPurge
          {| net := net w; clock := clock w; trace := trace w;
             cache := cache w; cache_queue := [] |}).

(** Modelled from the spec: [Cache.retrieve], defined in
    [perceval/cache.py].  Retrieve replays the persisted pages in the
    order they were appended. *)
Definition retrieve (entries : list string) : list string := entries.

Section Assembler.

(** The decoded records are opaque.  [json_loads raw] is the sequence
    that [for issue in json.loads(raw)] goes through, or the exception
    that decoding or iterating raises. *)
Context {item : Type}.
Variable json_loads : string → exn + list item.

(** *** [fetch]

    Suspended before the first statement, at the head of the outer
    loop (line 73), or inside the inner loop with the items of the
    current page that are still to be yielded. *)
Inductive fetch_state : Type :=
| F_created (from_date : option datetime)
| F_pages (issues_groups : get_issues_state)
| F_items (issues_groups : get_issues_state) (raw_issues : string) (issues : list item)
| F_finished.

Definition fetch (self : GitHub) (from_date : option datetime) : M fetch_state :=
  ret (F_created from_date).

(** Lines 69-71. *)
Definition fetch_enter (self : GitHub) (from_date : option datetime) : M get_issues_state :=
  _purge_cache_queue;;
  issues_groups ← get_issues (client self) from_date;
  ret issues_groups.

(** Lines 74-76. *)
Definition fetch_page (raw_issues : string) : M (list item) :=
  _push_cache_queue raw_issues;;
  _flush_cache_queue;;
  issues ← lift (json_loads raw_issues);
  ret issues.

Definition fetch_step (self : GitHub) (g : fetch_state) (w : State)
  : signal item * fetch_state * State :=
  match g with
  | F_created from_date =>
      match fetch_enter self from_date w with
      | (inr issues_groups, w') => (Continue, F_pages issues_groups, w')
      | (inl e, w') => (Raise e, F_finished, w')
      end
  | F_pages issues_groups =>
      match get_issues_next (client self) issues_groups w with
      | (Yield raw_issues, issues_groups', w') =>
          match fetch_page raw_issues w' with
          | (inr issues, w'') => (Continue, F_items issues_groups' raw_issues issues, w'')
          | (inl e, w'') => (Raise e, F_finished, w'')
          end
      | (StopIteration, _, w') => (StopIteration, F_finished, w')
      | (Raise e, _, w') => (Raise e, F_finished, w')
      | (Continue, issues_groups', w') => (Continue, F_pages issues_groups', w')
      end
  | F_items issues_groups raw_issues (issue :: issues) =>
      (Yield issue, F_items issues_groups raw_issues issues, w)
  | F_items issues_groups raw_issues [] =>
      (Continue, F_pages issues_groups, w)
  | F_finished => (StopIteration, F_finished, w)
  end.

(** *** [fetch_from_cache] *)
Inductive fetch_from_cache_state : Type :=
| FC_created
| FC_pages (cache_items : list string)
| FC_items (cache_items : list string) (raw_issues : string) (issues : list item)
| FC_finished.

Definition fetch_from_cache (self : GitHub) : M fetch_from_cache_state :=
  ret FC_created.

(** Lines 93-96.  A cache object is true; [not self.cache] holds for
    [None] only. *)
Definition fetch_from_cache_enter (self : GitHub) : M (list string) :=
  λ w, match cache w with
       | None => raise (CacheError "cache instance was not provided") w
       | Some entries => ret (retrieve entries) w
       end.

Definition fetch_from_cache_step (self : GitHub) (g : fetch_from_cache_state) (w : State)
  : signal item * fetch_from_cache_state * State :=
  match g with
  | FC_created =>
      match fetch_from_cache_enter self w with
      | (inr cache_items, w') => (Continue, FC_pages cache_items, w')
      | (inl e, w') => (Raise e, FC_finished, w')
      end
  | FC_pages (raw_issues :: cache_items) =>
      match json_loads raw_issues with
      | inr issues => (Continue, FC_items cache_items raw_issues issues, w)
      | inl e => (Raise e, FC_finished, w)
      end
  | FC_pages [] => (StopIteration, FC_finished, w)
  | FC_items cache_items raw_issues (issue :: issues) =>
      (Yield issue, FC_items cache_items raw_issues issues, w)
  | FC_items cache_items raw_issues [] =>
      (Continue, FC_pages cache_items, w)
  | FC_finished => (StopIteration, FC_finished, w)
  end.

End Assembler.

(** ** Sample data: the two-page scenario *)

Module Sample.

(** A decoder for flat arrays such as [[a,b]], enough to run the
    generators on concrete pages. *)
Definition loads (raw : string) : exn + list string :=
  match raw with
  | String "[" body =>
      match rev (list_ascii_of_string body) with
      | "]"%char :: inner =>
          match inner with
          | [] => inr []
          | _ => inr (split "," (string_of_list_ascii (rev inner)))
          end
      | _ => inl ValueError
      end
  | _ => inl ValueError
  end.

Definition gh : GitHub := GitHub_init "octo" "repo" "s3cr3t" None.

Definition from_date : datetime :=
  {| year := 2015; month := 1; day := 1; hour := 0; minute := 0; second := 0;
     microsecond := 0; utcoffset := None |}.

Definition url1 : string :=
  "https://api.github.com/repos/octo/repo/issues?per_page=30&state=all&sort=updated&direction=asc&since=2015-01-01T00:00:00".
Definition url2 : string :=
  "https://api.github.com/repositories/1/issues?per_page=30&state=all&page=2".

Definition limit (n : string) : gmap string string := {[ "x-ratelimit-remaining" := n ]}.

Definition page1 : Response :=
  {| text := "[1]"; headers := limit "59";
     links := {[ "next" := url2; "last" := url2 ]} |}.
Definition page2 : Response :=
  {| text := "[2]"; headers := limit "58"; links := ∅ |}.

(** The first page as a server that sends no [last] link, or no
    rate-limit header, would send it. *)
Definition page1_no_last : Response :=
  {| text := "[1]"; headers := limit "59"; links := {[ "next" := url2 ]} |}.
Definition url_page_first : string :=
  "https://api.github.com/repositories/1/issues?page=2".
Definition page1_page_first : Response :=
  {| text := "[1]"; headers := limit "59";
     links := {[ "next" := url2; "last" := url_page_first ]} |}.
(** A single page whose [last] link has [page] as its first parameter. *)
Definition page_only_page_first : Response :=
  {| text := "[1]"; headers := limit "59"; links := {[ "last" := url_page_first ]} |}.
Definition page_empty : Response :=
  {| text := ""; headers := limit "59"; links := ∅ |}.
Definition page_empty_next : Response :=
  {| text := ""; headers := limit "59"; links := {[ "next" := url2; "last" := url2 ]} |}.
(** A body that is not a JSON array. *)
Definition page_bad : Response :=
  {| text := "oops"; headers := limit "59"; links := ∅ |}.
Definition page1_no_limit : Response :=
  {| text := "[1]"; headers := ∅; links := {[ "next" := url2; "last" := url2 ]} |}.

(** The server answers by URL, whatever the time. *)
Definition serve (pages : list (string * Response)) (n : nat) (req : Request) : exn + Response :=
  match list_find (λ p, String.eqb (fst p) (url req) = true) pages with
  | Some (_, (_, r)) => inr r
  | None => inl (RequestException "not found")
  end.

Definition world (pages : list (string * Response)) (store : option (list string))
    (queue : list string) : State :=
  {| net := serve pages; clock := 0; trace := []; cache := store; cache_queue := queue |}.

End Sample.

(** ** What a trace says *)

(** The requests of a trace, in order. *)
Definition requests_of (evs : list event) : list Request :=
  omap (λ e, match e with EvGet req => Some req | _ => None end) evs.

(** The pages pushed to the cache queue, in order. *)
Definition pushes_of (evs : list event) : list string :=
  omap (λ e, match e with EvPush raw => Some raw | _ => None end) evs.

(** What the network answered to a sequence of requests, the first of
    them being request number [k]. *)
Fixpoint answers (nt : nat → Request → exn + Response) (k : nat) (reqs : list Request)
  : list (exn + Response) :=
  match reqs with
  | [] => []
  | q :: reqs' => nt k q :: answers nt (S k) reqs'
  end.

(** The request that the next step of [get_issues] sends, if it sends
    one: the issues URL at the start, the [next] link afterwards. *)
Definition next_request (self : GitHubClient) (g : get_issues_state) : list Request :=
  match g with
  | GI_created start => [get_request self (_get_issues_url self start)]
  | GI_suspended r _ _ =>
      match links r !! "next" with
      | Some url_next => [get_request self url_next]
      | None => []
      end
  | GI_finished => []
  end.

(** ** Chains of pages *)

(** [follows self nt k r rs]: the responses [rs] are what following the
    [next] links from [r] brings, the first of these requests being
    request number [k], and the last response has no [next] link. *)
Fixpoint follows (self : GitHubClient) (nt : nat → Request → exn + Response) (k : nat)
    (r : Response) (rs : list Response) : Prop :=
  match rs with
  | [] => links r !! "next" = None
  | r' :: rs' =>
      ∃ url_next, links r !! "next" = Some url_next
        ∧ nt k (get_request self url_next) = inr r'
        ∧ follows self nt (S k) r' rs'
  end.

(** [walk self nt k r rs]: following the [next] links from [r] brings
    the responses [rs], the first of these requests being request number
    [k]; every response before the last has a body and a [next] link,
    and the last is the first one that has an empty body or no [next]
    link. *)
Fixpoint walk (self : GitHubClient) (nt : nat → Request → exn + Response) (k : nat)
    (r : Response) (rs : list Response) : Prop :=
  match rs with
  | [] => text r = "" ∨ links r !! "next" = None
  | r' :: rs' =>
      text r ≠ ""
      ∧ ∃ url_next, links r !! "next" = Some url_next
          ∧ nt k (get_request self url_next) = inr r'
          ∧ walk self nt (S k) r' rs'
  end.

(** The [next] links of a sequence of responses. *)
Definition next_links (rs : list Response) : list string :=
  omap (λ r, links r !! "next") rs.

(** The iteration started in [w] yields exactly [pages] and stops, and
    sends exactly the requests [reqs]. *)
Definition yields_and_stops (self : GitHubClient) (start : option datetime) (w : State)
    (pages : list string) (reqs : list Request) : Prop :=
  ∃ n g' w' evs,
    run (get_issues_next self) n (GI_created start) w = (pages, Stopped, g', w')
    ∧ trace w' = (trace w ++ evs)%list
    ∧ requests_of evs = reqs.

(** The pagination property as the chain alone would give it: the
    bodies of [r :: rs] in order, one request per page, each after the
    first to the [next] link of the page before. *)
Definition pagination_on_chain (self : GitHubClient) (start : option datetime) (w : State)
    (r : Response) (rs : list Response) : Prop :=
  net w (clock w) (get_request self (_get_issues_url self start)) = inr r →
  follows self (net w) (S (clock w)) r rs →
  yields_and_stops self start w (text <$> r :: rs)
    (get_request self <$> _get_issues_url self start :: next_links (r :: rs)).

(** Every page requested is yielded and the iteration ends at a
    response without a [next] link: whenever the iteration has ended,
    the bodies yielded are those of all the responses received, and the
    last response has no [next] link. *)
Definition yields_every_page (self : GitHubClient) (start : option datetime) (w : State) : Prop :=
  ∀ n ys st g' w' evs rs,
    run (get_issues_next self) n (GI_created start) w = (ys, st, g', w') →
    st ≠ Running →
    trace w' = (trace w ++ evs)%list →
    answers (net w) (clock w) (requests_of evs) = inr <$> rs →
    ys = text <$> rs ∧ ∃ r, last rs = Some r ∧ links r !! "next" = None.

(** How an iteration that has stopped stands to the responses [rs] it
    received since the generator was in [g]: either it received none,
    having no request to send, or every response but the last had a body
    and a [next] link, and the last one either had a body and no [next]
    link, and was yielded, or had an empty body, and was not. *)
Definition stopped_after (self : GitHubClient) (g : get_issues_state)
    (rs : list Response) (ys : list string) : Prop :=
  (rs = [] ∧ next_request self g = [] ∧ ys = [])
  ∨ ∃ rs0 r,
      rs = (rs0 ++ [r])%list
      ∧ Forall (λ p, text p ≠ "" ∧ is_Some (links p !! "next")) rs0
      ∧ ((text r ≠ "" ∧ links r !! "next" = None ∧ ys = text <$> rs)
         ∨ (text r = "" ∧ ys = text <$> rs0)).

(** The round trip as a live fetch alone would give it: whenever a
    fetch has ended, iterating [fetch_from_cache] on the backend as the
    fetch left it yields what the fetch yielded, and stops. *)
Definition replay_equals_live {item : Type} (json_loads : string → exn + list item)
    (self : GitHub) (from_date : option datetime) (w0 : State) : Prop :=
  ∀ n ys g w,
    run (fetch_step json_loads self) n (F_created from_date) w0 = (ys, Stopped, g, w) →
    ∃ m g' w',
      run (fetch_from_cache_step json_loads self) m FC_created w = (ys, Stopped, g', w').

(** ** Decoding a sequence of pages *)

(** The items of a sequence of pages decoded one after the other, up to
    the first page that does not decode, and how the decoding ends. *)
Fixpoint assemble {item : Type} (json_loads : string → exn + list item)
    (pages : list string) : list item * status :=
  match pages with
  | [] => ([], Stopped)
  | raw :: pages' =>
      match json_loads raw with
      | inl e => ([], Raised e)
      | inr issues =>
          let '(ys, st) := assemble json_loads pages' in ((issues ++ ys)%list, st)
      end
  end.

(** What holds of a [fetch] that was created in state [w0], whenever it
    is suspended: nothing has happened yet, or the queue was purged
    first, the queue is empty again, the store has grown by exactly the
    pages pushed since, each of them the body of a response received
    since, and inside the inner loop the page being iterated is the last
    one pushed and flushed. *)
Definition fetch_inv {item : Type} (json_loads : string → exn + list item)
    (w0 : State) (g : fetch_state) (w : State) : Prop :=
  match g with
  | F_created _ => w = w0
  | _ =>
      net w = net w0 ∧ cache_queue w = []
      ∧ ∃ evs,
          trace w = (trace w0 ++ EvPurge :: evs)%list
          ∧ clock w = (clock w0 + List.length (requests_of evs))%nat
          ∧ cache w = (λ entries, (entries ++ pushes_of evs)%list) <$> cache w0
          ∧ Forall (λ raw, ∃ r, inr r ∈ answers (net w0) (clock w0) (requests_of evs)
                                ∧ raw = text r) (pushes_of evs)
          ∧ match g with
            | F_items _ raw_issues issues =>
                ∃ yielded t, json_loads raw_issues = inr (yielded ++ issues)%list
                             ∧ evs = (t ++ [EvPush raw_issues; EvFlush])%list
            | _ => True
            end
  end.

(** ** GitHubCommand

    The command line front end.  What it takes from code that is not in
    this file is a parameter: the date parser of [perceval/utils.py],
    [os.path.expanduser] and [os.path.join], [json.dumps], what
    [Cache.recover] makes of the store, which exceptions derive from
    [IOError], and an oracle for the output file ([accepts k s] says
    whether the [k]-th call of [outfile.write], with [s], succeeds, and
    [write_error k s] is the exception it raises when it does not). *)

Record ParsedArgs : Type := {
  arg_owner : string;
  arg_repository : string;
  arg_token : string;
  arg_from_date : string;
  arg_no_cache : bool;
  arg_cache_path : option string;
  arg_clean_cache : bool;
  arg_fetch_cache : bool
}.

(** What [__init__] does to the cache it creates. *)
Inductive cache_setup : Type :=
| CacheClean
| CacheBackup.

Record GitHubCommand : Type := {
  parsed_args : ParsedArgs;
  cmd_owner : string;
  cmd_repository : string;
  cmd_token : string;
  cmd_from_date : datetime;
  cmd_cache : option (string * cache_setup);
  backend : GitHub
}.

(** Why [run] raises [RuntimeError]: an exception that came out of the
    generator, or one that [outfile.write] raised. *)
Inductive cause : Type :=
| FromBackend (e : exn)
| FromSink (e : exn).

(** The exception the [try] statement caught. *)
Definition caught (c : cause) : exn :=
  match c with
  | FromBackend e => e
  | FromSink e => e
  end.

Inductive cmd_result : Type :=
| Returned
| RuntimeError (c : cause)
| Unfinished.

Record CmdState : Type := {
  world : State;
  written : list string;
  write_calls : nat;
  recoveries : nat
}.

Section Command.
Context {item : Type}.
Variable json_loads : string → exn + list item.
Variable json_dumps : item → string.
Variable str_to_datetime : string → exn + datetime.
Variable expanduser : string → string.
Variable join : string → string → string.
Variable is_ioerror : exn → bool.
Variable recover : list string → list string.
Variable accepts : nat → string → bool.
Variable write_error : nat → string → exn.

(** Lines 177-205. *)
Definition GitHubCommand_init (args : ParsedArgs) : exn + GitHubCommand :=
  let owner := arg_owner args in
  let repository := arg_repository args in
  let token := arg_token args in
  match str_to_datetime (arg_from_date args) with
  | inl e => inl e
  | inr from_date =>
      let cache :=
        if negb (arg_no_cache args) then
          let base_path :=
            if negb (truthy_opt (arg_cache_path args))
            then expanduser "~/.perceval/cache/"
            else default "" (arg_cache_path args) in
          let cache_path := join base_path (owner +:+ "_" +:+ repository) in
          Some (cache_path, if arg_clean_cache args then CacheClean else CacheBackup)
        else None in
      inr {| parsed_args := args; cmd_owner := owner; cmd_repository := repository;
             cmd_token := token; cmd_from_date := from_date; cmd_cache := cache;
             backend := GitHub_init owner repository token None |}
  end.

(** The generator [run] iterates: a [fetch] or a [fetch_from_cache]. *)
Definition issues_step (self : GitHub)
    (g : fetch_state (item := item) + fetch_from_cache_state (item := item)) (w : State)
  : signal item * (fetch_state + fetch_from_cache_state) * State :=
  match g with
  | inl f => let '(sig, f', w') := fetch_step json_loads self f w in (sig, inl f', w')
  | inr f => let '(sig, f', w') := fetch_from_cache_step json_loads self f w in (sig, inr f', w')
  end.

(** Lines 214-217. *)
Definition command_issues (self : GitHubCommand)
  : fetch_state (item := item) + fetch_from_cache_state (item := item) :=
  if arg_fetch_cache (parsed_args self) then inr FC_created
  else inl (F_created (Some (cmd_from_date self))).

Definition set_world (w : State) (c : CmdState) : CmdState :=
  {| world := w; written := written c; write_calls := write_calls c;
     recoveries := recoveries c |}.

(** [self.outfile.write(s)]: the exception it raises, if it raises
    one, be it an [IOError] (a full disk) or not (the [ValueError] of a
    closed file). *)
Definition outfile_write (s : string) (c : CmdState) : option exn * CmdState :=
  if accepts (write_calls c) s then
    (None, {| world := world c; written := written c ++ [s];
              write_calls := S (write_calls c); recoveries := recoveries c |})
  else
    (Some (write_error (write_calls c) s),
     {| world := world c; written := written c;
        write_calls := S (write_calls c); recoveries := recoveries c |}).

(** Lines 225-230: the two handlers.  They do not ask where the
    exception came from. *)
Definition handle (e : cause) (c : CmdState) : cmd_result * CmdState :=
  if is_ioerror (caught e) then (RuntimeError e, c)
  else
    match cache (world c) with
    | Some entries =>
        (RuntimeError e,
         {| world := {| net := net (world c); clock := clock (world c);
                        trace := trace (world c);
                        cache := Some (recover entries);
                        cache_queue := cache_queue (world c) |};
            written := written c; write_calls := write_calls c;
            recoveries := S (recoveries c) |})
    | None => (RuntimeError e, c)
    end.

(** Lines 219-230: the loop, for at most [fuel] steps of the generator. *)
Fixpoint run_loop (self : GitHub) (fuel : nat)
    (issues : fetch_state (item := item) + fetch_from_cache_state (item := item))
    (c : CmdState) : cmd_result * CmdState :=
  match fuel with
  | O => (Unfinished, c)
  | S fuel' =>
      match issues_step self issues (world c) with
      | (Yield issue, issues', w') =>
          let obj := json_dumps issue in
          match outfile_write obj (set_world w' c) with
          | (Some e, c1) => handle (FromSink e) c1
          | (None, c1) =>
              match outfile_write (String "010" "") c1 with
              | (Some e, c2) => handle (FromSink e) c2
              | (None, c2) => run_loop self fuel' issues' c2
              end
          end
      | (StopIteration, _, w') => (Returned, set_world w' c)
      | (Raise e, _, w') => handle (FromBackend e) (set_world w' c)
      | (Continue, issues', w') => run_loop self fuel' issues' (set_world w' c)
      end
  end.

(** [GitHubCommand.run]. *)
Definition GitHubCommand_run (self : GitHubCommand) (fuel : nat) (c : CmdState)
  : cmd_result * CmdState :=
  let issues := command_issues self in
  run_loop (backend self) fuel issues c.

(** What the loop writes for the items [ys]. *)
Definition output_of (ys : list item) : list string :=
  ys ≫= λ issue, [json_dumps issue; String "010" ""].

End Command.

(** ** Sample data for the command *)

Module SampleCommand.

Definition dumps (issue : string) : string := issue.

Definition to_datetime (s : string) : exn + datetime := inr Sample.from_date.

Definition home (path : string) : string := "/home/user" +:+ drop_chars 1 path.

Definition path_join (base name : string) : string := base +:+ name.

(** The exceptions of [requests] derive from [IOError]. *)
Definition is_ioerror (e : exn) : bool :=
  match e with
  | RequestException _ => true
  | _ => false
  end.

Definition restore (entries : list string) : list string := ["[0]"].

Definition accepts_all (k : nat) (s : string) : bool := true.

(** An output file that is closed after its first two writes. *)
Definition accepts_two (k : nat) (s : string) : bool := (k <? 2)%nat.

Definition closed_file (k : nat) (s : string) : exn := ValueError.

Definition args (fetch_cache : bool) : ParsedArgs :=
  {| arg_owner := "octo"; arg_repository := "repo"; arg_token := "s3cr3t";
     arg_from_date := "2015-01-01"; arg_no_cache := false; arg_cache_path := None;
     arg_clean_cache := false; arg_fetch_cache := fetch_cache |}.

Definition command (fetch_cache : bool) : GitHubCommand :=
  {| parsed_args := args fetch_cache; cmd_owner := "octo"; cmd_repository := "repo";
     cmd_token := "s3cr3t"; cmd_from_date := Sample.from_date;
     cmd_cache := Some ("/home/user/.perceval/cache/octo_repo", CacheBackup);
     backend := Sample.gh |}.

Definition start (w : State) : CmdState :=
  {| world := w; written := []; write_calls := 0; recoveries := 0 |}.

End SampleCommand.

(** The items of the current page that a [fetch] has still to yield. *)
Definition pending {item : Type} (g : fetch_state (item := item)) : list item :=
  match g with
  | F_items _ _ issues => issues
  | _ => []
  end.

(** * Properties *)

(** ** Driving a generator *)

Section RunFacts.
Context {G A : Type} (step : G → State → signal A * G * State).

Lemma run_S (n : nat) (g : G) (w : State) :
  run step (S n) g w =
    match step g w with
    | (Yield a, g', w') =>
        let '(ys, st, g'', w'') := run step n g' w' in (a :: ys, st, g'', w'')
    | (StopIteration, g', w') => ([], Stopped, g', w')
    | (Raise e, g', w') => ([], Raised e, g', w')
    | (Continue, g', w') => run step n g' w'
    end.
Proof. reflexivity. Qed.

(** Once the iteration has ended, more steps change nothing. *)
Lemma run_ended (n m : nat) (g g' : G) (w w' : State) (ys : list A) (st : status) :
  run step n g w = (ys, st, g', w') → st ≠ Running → (n ≤ m)%nat →
  run step m g w = (ys, st, g', w').
Proof.
  revert m g w ys. induction n as [|n IH]; intros m g w ys Hrun Hst Hle.
  - simpl in Hrun. congruence.
  - destruct m as [|m]; [lia|].
    rewrite run_S in Hrun. rewrite run_S.
    destruct (step g w) as [[[a| |e|] g1] w1]; try done.
    + destruct (run step n g1 w1) as [[[ys1 st1] g2] w2] eqn:E.
      injection Hrun as <- <- <- <-.
      rewrite (IH m g1 w1 ys1 E Hst); [done | lia].
    + apply IH; [done | done | lia].
Qed.

(** A generator ends in one way only. *)
Lemma run_ended_unique (n m : nat) (g g1 g2 : G) (w w1 w2 : State)
    (ys1 ys2 : list A) (st1 st2 : status) :
  run step n g w = (ys1, st1, g1, w1) → st1 ≠ Running →
  run step m g w = (ys2, st2, g2, w2) → st2 ≠ Running →
  (ys1, st1, g1, w1) = (ys2, st2, g2, w2).
Proof.
  intros H1 Hs1 H2 Hs2.
  pose proof (run_ended n (n `max` m) _ _ _ _ _ _ H1 Hs1 ltac:(lia)) as E1.
  pose proof (run_ended m (n `max` m) _ _ _ _ _ _ H2 Hs2 ltac:(lia)) as E2.
  congruence.
Qed.

(** A property of the configurations that every step preserves holds
    after any number of steps. *)
Lemma run_preserves (I : G → State → Prop) :
  (∀ g w, I g w → I (step g w).1.2 (step g w).2) →
  ∀ n g w, I g w → I (run step n g w).1.2 (run step n g w).2.
Proof.
  intros Hstep. induction n as [|n IH]; intros g w HI; [done|].
  rewrite run_S. specialize (Hstep g w HI).
  destruct (step g w) as [[[a| |e|] g1] w1]; simpl in Hstep; try done.
  - specialize (IH g1 w1 Hstep).
    by destruct (run step n g1 w1) as [[[ys1 st1] g2] w2].
  - by apply IH.
Qed.
End RunFacts.

(** ** Replay without a cache *)

(** C4.  On a backend that was given no cache object, iterating
    [fetch_from_cache] raises [CacheError] and hands no item to the
    consumer, however long the consumer goes on. *)
Theorem fetch_from_cache_without_cache {item : Type} (json_loads : string → exn + list item)
    (self : GitHub) (w : State) (n : nat) :
  cache w = None →
  run (fetch_from_cache_step json_loads self) (S n) FC_created w
  = ([], Raised (CacheError "cache instance was not provided"), FC_finished, w).
Proof.
  intros Hnone. rewrite run_S. unfold fetch_from_cache_step, fetch_from_cache_enter.
  by rewrite Hnone.
Qed.

Lemma fetch_from_cache_without_cache_witness :
  cache (Sample.world [] None []) = None ∧
  run (fetch_from_cache_step Sample.loads Sample.gh) 3 FC_created (Sample.world [] None [])
  = ([], Raised (CacheError "cache instance was not provided"), FC_finished,
     Sample.world [] None []).
Proof.
  split; [reflexivity|].
  apply (fetch_from_cache_without_cache Sample.loads Sample.gh (Sample.world [] None []) 2).
  reflexivity.
Defined.

(** C9.  Calling [fetch_from_cache] on a backend without a cache returns
    the generator and touches nothing; the [CacheError] comes out of the
    first step of that generator. *)
Theorem fetch_from_cache_fails_lazily {item : Type} (json_loads : string → exn + list item)
    (self : GitHub) (w : State) :
  cache w = None →
  fetch_from_cache (item := item) self w = (inr FC_created, w)
  ∧ fetch_from_cache_step json_loads self FC_created w
    = (Raise (CacheError "cache instance was not provided"), FC_finished, w).
Proof.
  intros Hnone. repeat split.
  unfold fetch_from_cache_step, fetch_from_cache_enter. by rewrite Hnone.
Qed.

Lemma fetch_from_cache_fails_lazily_witness :
  cache (Sample.world [] None ["stale"]) = None ∧
  fetch_from_cache (item := string) Sample.gh (Sample.world [] None ["stale"])
  = (inr FC_created, Sample.world [] None ["stale"]).
Proof.
  split; [reflexivity|].
  apply (fetch_from_cache_fails_lazily Sample.loads Sample.gh (Sample.world [] None ["stale"])).
  reflexivity.
Defined.

(** ** One step of [get_issues] *)

Lemma header_limit (r : Response) :
  header r "X-RateLimit-Remaining" = getitem (headers r) "x-ratelimit-remaining".
Proof. reflexivity. Qed.

Ltac unfold_m :=
  rewrite ?header_limit;
  unfold mbind, M_bind, bind, mret, M_ret, ret, raise, lift, getitem,
    logger_debug, requests_get, format_page, emit, from_option.

Ltac case_step :=
  match goal with
  | |- ?lhs = _ → _ =>
      match lhs with
      | context [match ?x with _ => _ end] =>
          lazymatch x with
          | context [match _ with _ => _ end] => fail
          | _ => destruct x eqn:?
          end
      end
  end.

Ltac eval_m := unfold_m; repeat (case_step; unfold_m; simpl).

Lemma get_issues_next_effects (self : GitHubClient) (g g' : get_issues_state)
    (w w' : State) (sig : signal string) :
  get_issues_next self g w = (sig, g', w') →
  net w' = net w ∧ cache w' = cache w ∧ cache_queue w' = cache_queue w
  ∧ clock w' = (clock w + List.length (next_request self g))%nat
  ∧ ∃ evs, trace w' = (trace w ++ evs)%list
      ∧ requests_of evs = next_request self g ∧ pushes_of evs = [].
Proof.
  unfold get_issues_next, get_issues_first, get_issues_resume, read_last_page,
    get_issues_loop, next_request.
  eval_m.
  all: intros [= <- <- <-]; simpl; rewrite ?Nat.add_0_r, ?Nat.add_1_r.
  all: split_and!; try done.
  all: rewrite <- ?List.app_assoc; try (by eexists).
  all: exists []; by rewrite app_nil_r.
Qed.

Lemma get_issues_next_outcome (self : GitHubClient) (g g' : get_issues_state)
    (w w' : State) (sig : signal string) :
  get_issues_next self g w = (sig, g', w') →
  match sig with
  | Yield raw =>
      ∃ r page last_page,
        answers (net w) (clock w) (next_request self g) = [inr r]
        ∧ g' = GI_suspended r page last_page ∧ raw = text r ∧ text r ≠ ""
  | StopIteration =>
      g' = GI_finished
      ∧ (next_request self g = []
         ∨ ∃ r, answers (net w) (clock w) (next_request self g) = [inr r] ∧ text r = "")
  | Raise e =>
      g' = GI_finished
      ∧ (answers (net w) (clock w) (next_request self g) = [inl e]
         ∨ ∃ r, answers (net w) (clock w) (next_request self g) = [inr r])
  | Continue => False
  end.
Proof.
  unfold get_issues_next, get_issues_first, get_issues_resume, read_last_page,
    get_issues_loop, next_request.
  eval_m.
  all: intros [= <- <- <-]; simpl.
  all: repeat match goal with H : net _ _ _ = _ |- _ => rewrite H end.
  all: try match goal with H : truthy ?s = _ |- _ => destruct s eqn:?; simplify_eq/= end.
  all: eauto 10.
  all: eexists _, _, _; split_and!; [done..|congruence].
Qed.

(** The steps of [get_issues] leave the cache alone and send only
    requests built by [get_request]. *)
Lemma get_issues_run_effects (self : GitHubClient) (n : nat) (g : get_issues_state) (w : State) :
  let w' := (run (get_issues_next self) n g w).2 in
  net w' = net w ∧ cache w' = cache w ∧ cache_queue w' = cache_queue w
  ∧ ∃ evs, trace w' = (trace w ++ evs)%list
      ∧ Forall (λ q, ∃ u, q = get_request self u) (requests_of evs)
      ∧ pushes_of evs = [].
Proof.
  apply (run_preserves (get_issues_next self)
    (λ _ w', net w' = net w ∧ cache w' = cache w ∧ cache_queue w' = cache_queue w
       ∧ ∃ evs, trace w' = (trace w ++ evs)%list
           ∧ Forall (λ q, ∃ u, q = get_request self u) (requests_of evs)
           ∧ pushes_of evs = [])).
  - intros g1 w1 (Hn & Hc & Hq & evs & Ht & Hreq & Hpush).
    destruct (get_issues_next self g1 w1) as [[sig g2] w2] eqn:E. simpl.
    apply get_issues_next_effects in E as (Hn2 & Hc2 & Hq2 & _ & evs2 & Ht2 & Hreq2 & Hpush2).
    split_and!; try congruence.
    exists (evs ++ evs2)%list. split_and!.
    + rewrite Ht2, Ht. by rewrite <- List.app_assoc.
    + unfold requests_of. rewrite omap_app. apply Forall_app. split; [done|].
      fold (requests_of evs2). rewrite Hreq2.
      destruct g1 as [start|r page lp|]; simpl; [eauto| |done].
      destruct (links r !! "next"); eauto.
    + unfold pushes_of in *. rewrite omap_app. by rewrite Hpush, Hpush2.
  - split_and!; try done. exists []. by rewrite app_nil_r.
Qed.

(** ** The first request and the authorisation header *)

Lemma string_app_assoc (a b c : string) : (a +:+ b) +:+ c = a +:+ b +:+ c.
Proof.
  induction a as [|x a IH]; [done|].
  change (String x ((a +:+ b) +:+ c) = String x (a +:+ b +:+ c)). by rewrite IH.
Qed.

(** C6.  The first request goes to
    [{base}/repos/{owner}/{repo}/issues?per_page=30&state=all&sort=updated&direction=asc],
    followed by [&since=] and the ISO form of the from-date exactly when
    one is given; [{base}] is the configured base URL when there is a
    non-empty one and [https://api.github.com] otherwise.  That request
    and every later one carry [Authorization: token {token}] and no
    other header. *)
Theorem first_request_and_authorization (self : GitHubClient) (start : option datetime)
    (w : State) (n : nat) :
  ∃ evs rest,
    trace (run (get_issues_next self) (S n) (GI_created start) w).2 = (trace w ++ evs)%list
    ∧ requests_of evs
      = {| url :=
             match base_url self with
             | Some (String c b) => String c b
             | _ => "https://api.github.com"
             end
             +:+ "/repos/" +:+ owner self +:+ "/" +:+ repository self
             +:+ "/issues?per_page=30&state=all&sort=updated&direction=asc"
             +:+ match start with
                 | Some d => "&since=" +:+ isoformat d
                 | None => ""
                 end;
           verify := false;
           req_headers := {[ "Authorization" := "token " +:+ auth_token self ]} |}
        :: rest
    ∧ Forall (λ q, req_headers q = {[ "Authorization" := "token " +:+ auth_token self ]}) rest.
Proof.
  rewrite run_S.
  destruct (get_issues_next self (GI_created start) w) as [[sig g1] w1] eqn:E.
  pose proof (get_issues_next_effects _ _ _ _ _ _ E) as (_ & _ & _ & _ & evs1 & Ht1 & Hreq1 & _).
  pose proof (get_issues_run_effects self n g1 w1) as (_ & _ & _ & evs2 & Ht2 & Hreq2 & _).
  assert (Hurl : get_request self (_get_issues_url self start)
    = {| url :=
           match base_url self with
           | Some (String c b) => String c b
           | _ => "https://api.github.com"
           end
           +:+ "/repos/" +:+ owner self +:+ "/" +:+ repository self
           +:+ "/issues?per_page=30&state=all&sort=updated&direction=asc"
           +:+ match start with
               | Some d => "&since=" +:+ isoformat d
               | None => ""
               end;
         verify := false;
         req_headers := {[ "Authorization" := "token " +:+ auth_token self ]} |}).
  { unfold get_request, _get_issues_url, _get_url. f_equal.
    change (str 30) with "30".
    destruct (base_url self) as [[|c b]|], start as [d|]; simpl;
      rewrite ?string_app_assoc; simpl; rewrite ?string_app_assoc; done. }
  assert (Hall : Forall (λ q, req_headers q = {[ "Authorization" := "token " +:+ auth_token self ]})
                   (requests_of evs2)).
  { eapply Forall_impl; [exact Hreq2|]. by intros q [u ->]. }
  simpl in Hreq1. rewrite Hurl in Hreq1.
  destruct sig as [raw| |e|]; simpl.
  - destruct (run (get_issues_next self) n g1 w1) as [[[ys st] g2] w2]. simpl in *.
    exists (evs1 ++ evs2)%list, (requests_of evs2). split_and!; [|by unfold requests_of in *; rewrite omap_app, Hreq1|done].
    rewrite Ht2, Ht1. by rewrite <- List.app_assoc.
  - exists evs1, []. by rewrite Hreq1.
  - exists evs1, []. by rewrite Hreq1.
  - exists (evs1 ++ evs2)%list, (requests_of evs2). split_and!; [|by unfold requests_of in *; rewrite omap_app, Hreq1|done].
    rewrite Ht2, Ht1. by rewrite <- List.app_assoc.
Qed.

(** ** The page count read from the [last] link *)

Lemma starts_with_drop (p s : string) :
  starts_with p s = true → s = p +:+ drop_chars (String.length p) s.
Proof.
  revert s. induction p as [|a p IH]; intros s H; [done|].
  destruct s as [|b s]; [done|]. simpl in H.
  apply andb_prop in H as [Hab Hp]. apply Ascii.eqb_eq in Hab as ->.
  change (String b s = String b (p +:+ drop_chars (String.length p) s)).
  by rewrite <- IH.
Qed.

Lemma cut_app (sep s a b : string) :
  cut sep s = Some (a, b) → s = a +:+ sep +:+ b.
Proof.
  revert a b. induction s as [|c s IH]; intros a b; simpl.
  - destruct (starts_with sep "") eqn:E; [|done].
    intros [= <- <-]. by apply starts_with_drop.
  - destruct (starts_with sep (String c s)) eqn:E.
    + intros [= <- <-]. by apply starts_with_drop.
    + destruct (cut sep s) as [[a' b']|]; [|done].
      intros [= <- <-]. change (String c s = String c (a' +:+ sep +:+ b')).
      by rewrite <- (IH a' b').
Qed.

(** The first piece of a split is the text up to the first separator. *)
Lemma split_first (sep s d : string) :
  split sep s !! 0%nat = Some d → d = s ∨ ∃ t, s = d +:+ sep +:+ t.
Proof.
  unfold split. destruct (String.length s) as [|n]; simpl; [naive_solver|].
  destruct (cut sep s) as [[a b]|] eqn:E; simpl; [|naive_solver].
  intros [= <-]. right. exists b. by apply cut_app.
Qed.

(** The second piece starts after the first separator and runs to the
    next one. *)
Lemma split_second (sep s seg : string) :
  split sep s !! 1%nat = Some seg →
  ∃ pre rest, s = pre +:+ sep +:+ rest
    ∧ (seg = rest ∨ ∃ rest', rest = seg +:+ sep +:+ rest').
Proof.
  unfold split. destruct (String.length s) as [|n]; simpl; [done|].
  destruct (cut sep s) as [[a b]|] eqn:E; simpl; [|done].
  apply cut_app in E. intros H. exists a, b. split; [done|].
  destruct n as [|n]; simpl in H; [naive_solver|].
  destruct (cut sep b) as [[a' b']|] eqn:E'; simpl in H; [|naive_solver].
  injection H as <-. right. exists b'. by apply cut_app.
Qed.

(** Without a page number after some [&page=], lines 154-155 raise. *)
Lemma last_page_of_raises (last_url : string) :
  (∀ pre d tail, last_url = pre +:+ "&page=" +:+ d +:+ tail →
     tail = "" ∨ (∃ t, tail = "&" +:+ t) → int d = None) →
  last_page_of last_url = inl IndexError ∨ last_page_of last_url = inl ValueError.
Proof.
  intros Hno. unfold last_page_of, index.
  destruct (split "&page=" last_url !! 1%nat) as [seg|] eqn:E1; [|by left].
  destruct (split "&" seg !! 0%nat) as [d|] eqn:E2; [|by left].
  assert (int d = None) as ->; [|by right].
  apply split_second in E1 as (pre & rest & -> & Hseg).
  apply split_first in E2 as [->|[t ->]].
  - destruct Hseg as [->|[rest' ->]].
    + apply (Hno pre rest ""); [|by left].
      clear. f_equal. f_equal. induction rest as [|c rest IH]; [done|].
      change (String c rest = String c (rest +:+ "")). by rewrite <- IH.
    + apply (Hno pre seg ("&page=" +:+ rest')); [done|].
      right. by exists ("page=" +:+ rest').
  - destruct Hseg as [<-|[rest' ->]].
    + apply (Hno pre d ("&" +:+ t)); [done|]. right. by exists t.
    + apply (Hno pre d ("&" +:+ t +:+ "&page=" +:+ rest')).
      * by rewrite !string_app_assoc.
      * right. by eexists.
Qed.

Lemma read_last_page_raises (r : Response) (page : Z) (w : State) (last_url : string) :
  links r !! "last" = Some last_url →
  (∀ pre d tail, last_url = pre +:+ "&page=" +:+ d +:+ tail →
     tail = "" ∨ (∃ t, tail = "&" +:+ t) → int d = None) →
  ∃ e, (e = IndexError ∨ e = ValueError) ∧ read_last_page r page w = (inl e, w).
Proof.
  intros Hlast Hno. unfold read_last_page. rewrite Hlast. unfold_m.
  destruct (last_page_of_raises last_url Hno) as [-> | ->]; eauto.
Qed.

Lemma starts_with_app (p s : string) : starts_with p (p +:+ s) = true.
Proof.
  induction p as [|a p IH]; [done|].
  change (Ascii.eqb a a && starts_with p (p +:+ s) = true).
  by rewrite Ascii.eqb_refl, IH.
Qed.

Lemma cut_finds (sep pre rest : string) : cut sep (pre +:+ sep +:+ rest) ≠ None.
Proof.
  induction pre as [|c pre IH].
  - change ("" +:+ sep +:+ rest) with (sep +:+ rest).
    destruct (sep +:+ rest) eqn:E; simpl; rewrite <- E, starts_with_app; done.
  - change (String c pre +:+ sep +:+ rest) with (String c (pre +:+ sep +:+ rest)).
    simpl. destruct (starts_with sep _); [done|].
    by destruct (cut sep (pre +:+ sep +:+ rest)) as [[a b]|].
Qed.

(** C10.  When the first response has a [last] link in which no
    [&page=] is followed, up to the next [&] or the end, by a decimal
    integer (as [int()] reads one), [get_issues] raises before it yields
    any page: [IndexError] or [ValueError] from the parse, or [KeyError]
    when the rate-limit header is missing as well. *)
Theorem last_link_without_page_number (self : GitHubClient) (start : option datetime)
    (w : State) (r : Response) (last_url : string) :
  net w (clock w) (get_request self (_get_issues_url self start)) = inr r →
  links r !! "last" = Some last_url →
  (∀ pre d tail, last_url = pre +:+ "&page=" +:+ d +:+ tail →
     tail = "" ∨ (∃ t, tail = "&" +:+ t) → int d = None) →
  ∃ e w',
    (e = KeyError "x-ratelimit-remaining" ∨ e = IndexError ∨ e = ValueError)
    ∧ ∀ n, run (get_issues_next self) (S n) (GI_created start) w
           = ([], Raised e, GI_finished, w').
Proof.
  intros Hnet Hlast Hno.
  assert (∃ e w', (e = KeyError "x-ratelimit-remaining" ∨ e = IndexError ∨ e = ValueError)
            ∧ get_issues_next self (GI_created start) w = (Raise e, GI_finished, w'))
    as (e & w' & He & Hstep).
  { unfold get_issues_next, get_issues_first. unfold_m. simpl. rewrite Hnet.
    unfold_m. simpl.
    destruct (headers r !! "x-ratelimit-remaining") as [lim|]; simpl; [|eauto 6].
    match goal with
    | |- context [read_last_page r ?p ?w1] =>
        destruct (read_last_page_raises r p w1 last_url Hlast Hno) as (e & He & ->)
    end.
    exists e. eexists. split; [tauto|done]. }
  exists e, w'. split; [done|]. intros n. by rewrite run_S, Hstep.
Qed.

Lemma last_link_without_page_number_witness :
  let w := Sample.world [(Sample.url1, Sample.page1_page_first)] None [] in
  let self := client Sample.gh in
  let start := Some Sample.from_date in
  net w (clock w) (get_request self (_get_issues_url self start)) = inr Sample.page1_page_first
  ∧ links Sample.page1_page_first !! "last" = Some Sample.url_page_first
  ∧ (∀ pre d tail, Sample.url_page_first = pre +:+ "&page=" +:+ d +:+ tail →
       tail = "" ∨ (∃ t, tail = "&" +:+ t) → int d = None)
  ∧ ∃ e w',
      (e = KeyError "x-ratelimit-remaining" ∨ e = IndexError ∨ e = ValueError)
      ∧ ∀ n, run (get_issues_next self) (S n) (GI_created start) w
             = ([], Raised e, GI_finished, w').
Proof.
  intros w self start.
  assert (H1 : net w (clock w) (get_request self (_get_issues_url self start))
               = inr Sample.page1_page_first) by (vm_compute; reflexivity).
  assert (H2 : links Sample.page1_page_first !! "last" = Some Sample.url_page_first)
    by (vm_compute; reflexivity).
  assert (H3 : ∀ pre d tail, Sample.url_page_first = pre +:+ "&page=" +:+ d +:+ tail →
                 tail = "" ∨ (∃ t, tail = "&" +:+ t) → int d = None).
  { intros pre d tail Hurl _. exfalso.
    apply (cut_finds "&page=" pre (d +:+ tail)). rewrite <- Hurl. vm_compute. reflexivity. }
  split_and!; try done.
  exact (last_link_without_page_number self start w Sample.page1_page_first
           Sample.url_page_first H1 H2 H3).
Defined.

(** ** Diagnostics and control flow *)

(** C7, at a failing input.  The same two pages are served three times;
    only the diagnostics of the first response differ.  With the [last]
    link and the rate-limit header both pages are yielded.  Without the
    [last] link the second page is requested and then line 170 raises
    [TypeError], so only the first page is yielded.  Without the header
    line 150 raises [KeyError] before anything is yielded. *)
Theorem diagnostics_alter_control_flow :
  let go first :=
    run (get_issues_next (client Sample.gh)) 5 (GI_created (Some Sample.from_date))
      (Sample.world [(Sample.url1, first); (Sample.url2, Sample.page2)] None []) in
  (go Sample.page1).1.1 = (["[1]"; "[2]"], Stopped)
  ∧ (go Sample.page1_no_last).1.1 = (["[1]"], Raised TypeError)
  ∧ List.length (requests_of (trace (go Sample.page1_no_last).2)) = 2%nat
  ∧ (go Sample.page1_no_limit).1.1 = ([], Raised (KeyError "x-ratelimit-remaining")).
Proof. vm_compute. repeat split. Qed.

(** ** Following the [next] links *)

Lemma get_issues_next_stop (self : GitHubClient) (r : Response) (page : Z)
    (last_page : option Z) (w : State) :
  links r !! "next" = None →
  get_issues_next self (GI_suspended r page last_page) w = (StopIteration, GI_finished, w).
Proof. intros H. unfold get_issues_next, get_issues_resume. by rewrite H. Qed.

Lemma get_issues_next_page (self : GitHubClient) (r r' : Response) (page last_page : Z)
    (url_next limit : string) (w : State) :
  links r !! "next" = Some url_next →
  net w (clock w) (get_request self url_next) = inr r' →
  headers r' !! "x-ratelimit-remaining" = Some limit →
  text r' ≠ "" →
  ∃ w', get_issues_next self (GI_suspended r page (Some last_page)) w
        = (Yield (text r'), GI_suspended r' (page + 1) (Some last_page), w').
Proof.
  intros Hnext Hnet Hlim Htext.
  unfold get_issues_next, get_issues_resume. rewrite Hnext.
  unfold_m. simpl. rewrite Hnet. unfold_m. simpl. rewrite Hlim. simpl.
  destruct (text r') eqn:E; [done|]. simpl. eauto.
Qed.

Lemma get_issues_next_first (self : GitHubClient) (start : option datetime) (r : Response)
    (limit : string) (w : State) :
  net w (clock w) (get_request self (_get_issues_url self start)) = inr r →
  headers r !! "x-ratelimit-remaining" = Some limit →
  text r ≠ "" →
  match links r !! "last" with
  | Some last_url => ∃ n, last_page_of last_url = inr n
  | None => True
  end →
  ∃ w' last_page,
    get_issues_next self (GI_created start) w
    = (Yield (text r), GI_suspended r 1 last_page, w')
    ∧ (is_Some (links r !! "last") → is_Some last_page).
Proof.
  intros Hnet Hlim Htext Hlast.
  unfold get_issues_next, get_issues_first, read_last_page.
  unfold_m. simpl. rewrite Hnet. unfold_m. simpl. rewrite Hlim. simpl.
  destruct (links r !! "last") as [last_url|].
  - destruct Hlast as [n Hn]. unfold_m. rewrite Hn. simpl.
    destruct (text r) eqn:E; [done|]. simpl. eauto.
  - unfold_m. destruct (text r) eqn:E; [done|]. simpl.
    eexists _, None. split; [done|]. by intros [? ?].
Qed.

Lemma follows_resume (self : GitHubClient) (rs : list Response) (r : Response) (page : Z)
    (last_page : option Z) (w : State) :
  follows self (net w) (clock w) r rs →
  Forall (λ p, text p ≠ "" ∧ is_Some (headers p !! "x-ratelimit-remaining")) rs →
  rs = [] ∨ is_Some last_page →
  ∃ w' evs,
    run (get_issues_next self) (S (List.length rs)) (GI_suspended r page last_page) w
    = (text <$> rs, Stopped, GI_finished, w')
    ∧ trace w' = (trace w ++ evs)%list
    ∧ requests_of evs = get_request self <$> next_links (r :: rs).
Proof.
  revert r page w. induction rs as [|r' rs IH]; intros r page w Hfol Hok Hlp.
  - simpl in Hfol. rewrite run_S, get_issues_next_stop by done.
    exists w, []. rewrite app_nil_r. unfold next_links. simpl. by rewrite Hfol.
  - destruct Hfol as (u & Hnext & Hnet & Hfol).
    apply Forall_cons in Hok as [[Htext [lim Hlim]] Hok].
    destruct Hlp as [|[lp ->]]; [done|].
    destruct (get_issues_next_page self r r' page lp u lim w Hnext Hnet Hlim Htext)
      as [w1 Hstep].
    pose proof (get_issues_next_effects _ _ _ _ _ _ Hstep)
      as (Hn1 & _ & _ & Hc1 & evs1 & Ht1 & Hreq1 & _).
    simpl in Hc1, Hreq1. rewrite Hnext in Hc1, Hreq1. simpl in Hc1.
    destruct (IH r' (page + 1) w1) as (w' & evs & Hrun & Ht & Hreq).
    { rewrite Hn1, Hc1. by replace (clock w + 1)%nat with (S (clock w)) by lia. }
    { done. }
    { right. by eexists. }
    exists w', (evs1 ++ evs)%list. split_and!.
    + change (List.length (r' :: rs)) with (S (List.length rs)).
      rewrite run_S, Hstep, Hrun. done.
    + rewrite Ht, Ht1. by rewrite <- List.app_assoc.
    + unfold requests_of in *. rewrite omap_app, Hreq1, Hreq.
      unfold next_links. simpl. by rewrite Hnext.
Qed.

(** C2, as amended.  On a finite chain of pages in which every body is
    non-empty, every response carries the rate-limit header, and the
    first response either carries a [last] link from which lines 154-155
    read a page number, or carries none and is the only page,
    [get_issues] yields exactly the bodies of the pages in order and
    stops; it sends one request per page, the first to the issues URL
    and each later one to the [next] link of the response before. *)
Theorem pagination_follows_next_links (self : GitHubClient) (start : option datetime)
    (w : State) (r : Response) (rs : list Response) :
  net w (clock w) (get_request self (_get_issues_url self start)) = inr r →
  follows self (net w) (S (clock w)) r rs →
  Forall (λ p, text p ≠ "" ∧ is_Some (headers p !! "x-ratelimit-remaining")) (r :: rs) →
  match links r !! "last" with
  | Some last_url => ∃ n, last_page_of last_url = inr n
  | None => rs = []
  end →
  yields_and_stops self start w (text <$> r :: rs)
    (get_request self <$> _get_issues_url self start :: next_links (r :: rs)).
Proof.
  intros Hnet Hfol Hok Hlast.
  apply Forall_cons in Hok as [[Htext [lim Hlim]] Hok].
  destruct (get_issues_next_first self start r lim w Hnet Hlim Htext)
    as (w1 & lp & Hstep & Hlp).
  { destruct (links r !! "last"); done. }
  pose proof (get_issues_next_effects _ _ _ _ _ _ Hstep)
    as (Hn1 & _ & _ & Hc1 & evs1 & Ht1 & Hreq1 & _).
  simpl in Hc1, Hreq1.
  destruct (follows_resume self rs r 1 lp w1) as (w' & evs & Hrun & Ht & Hreq).
  { rewrite Hn1, Hc1. by replace (clock w + 1)%nat with (S (clock w)) by lia. }
  { done. }
  { destruct (links r !! "last"); [right; by apply Hlp | by left]. }
  exists (S (S (List.length rs))), GI_finished, w', (evs1 ++ evs)%list. split_and!.
  - rewrite run_S, Hstep, Hrun. done.
  - rewrite Ht, Ht1. by rewrite <- List.app_assoc.
  - unfold requests_of in *. by rewrite omap_app, Hreq1, Hreq.
Qed.

Lemma pagination_follows_next_links_witness :
  let w := Sample.world [(Sample.url1, Sample.page1); (Sample.url2, Sample.page2)] None [] in
  let self := client Sample.gh in
  let start := Some Sample.from_date in
  net w (clock w) (get_request self (_get_issues_url self start)) = inr Sample.page1
  ∧ follows self (net w) (S (clock w)) Sample.page1 [Sample.page2]
  ∧ Forall (λ p, text p ≠ "" ∧ is_Some (headers p !! "x-ratelimit-remaining"))
      [Sample.page1; Sample.page2]
  ∧ (∃ n, last_page_of Sample.url2 = inr n)
  ∧ yields_and_stops self start w ["[1]"; "[2]"]
      [get_request self Sample.url1; get_request self Sample.url2].
Proof.
  intros w self start.
  assert (H1 : net w (clock w) (get_request self (_get_issues_url self start)) = inr Sample.page1)
    by (vm_compute; reflexivity).
  assert (H2 : follows self (net w) (S (clock w)) Sample.page1 [Sample.page2])
    by (exists Sample.url2; split_and!; vm_compute; reflexivity).
  assert (H3 : Forall (λ p, text p ≠ "" ∧ is_Some (headers p !! "x-ratelimit-remaining"))
                 [Sample.page1; Sample.page2])
    by (repeat constructor; try (by vm_compute); by eexists).
  assert (H4 : ∃ n, last_page_of Sample.url2 = inr n)
    by (exists 2; vm_compute; reflexivity).
  split_and!; try done.
  exact (pagination_follows_next_links self start w Sample.page1 [Sample.page2] H1 H2 H3 H4).
Defined.

(** C2 as stated fails on four chains.  A single page with an empty body
    is requested and not yielded, because the loop of line 158 tests the
    body.  A first page with a [next] link and no [last] link is
    yielded, the second page is requested, and line 170 raises.  A first
    page without the rate-limit header makes line 150 raise.  A single
    page whose [last] link holds no [&page=] makes line 154 raise. *)
Lemma pagination_on_chain_fails :
  ¬ pagination_on_chain (client Sample.gh) (Some Sample.from_date)
      (Sample.world [(Sample.url1, Sample.page_empty)] None [])
      Sample.page_empty []
  ∧ ¬ pagination_on_chain (client Sample.gh) (Some Sample.from_date)
        (Sample.world [(Sample.url1, Sample.page1_no_last); (Sample.url2, Sample.page2)] None [])
        Sample.page1_no_last [Sample.page2]
  ∧ ¬ pagination_on_chain (client Sample.gh) (Some Sample.from_date)
        (Sample.world [(Sample.url1, Sample.page1_no_limit); (Sample.url2, Sample.page2)] None [])
        Sample.page1_no_limit [Sample.page2]
  ∧ ¬ pagination_on_chain (client Sample.gh) (Some Sample.from_date)
        (Sample.world [(Sample.url1, Sample.page_only_page_first)] None [])
        Sample.page_only_page_first [].
Proof.
  split_and!; intros H.
  - destruct H as (n & g' & w' & evs & Hrun & _); [by vm_compute | by vm_compute |].
    destruct (run (get_issues_next (client Sample.gh)) 5 (GI_created (Some Sample.from_date))
                (Sample.world [(Sample.url1, Sample.page_empty)] None []))
      as [[[ys st] g2] w2] eqn:E.
    assert (ys = [] ∧ st = Stopped) as [-> ->].
    { apply (f_equal (λ x, x.1.1)) in E. vm_compute in E. by injection E as <- <-. }
    pose proof (run_ended_unique _ _ _ _ _ _ _ _ _ _ _ _ _ Hrun ltac:(done) E ltac:(done)).
    done.
  - destruct H as (n & g' & w' & evs & Hrun & _).
    { by vm_compute. }
    { exists Sample.url2. split_and!; by vm_compute. }
    destruct (run (get_issues_next (client Sample.gh)) 5 (GI_created (Some Sample.from_date))
                (Sample.world [(Sample.url1, Sample.page1_no_last); (Sample.url2, Sample.page2)]
                   None []))
      as [[[ys st] g2] w2] eqn:E.
    assert (st = Raised TypeError) as ->.
    { apply (f_equal (λ x, x.1.1.2)) in E. vm_compute in E. done. }
    pose proof (run_ended_unique _ _ _ _ _ _ _ _ _ _ _ _ _ Hrun ltac:(done) E ltac:(done)).
    done.
  - destruct H as (n & g' & w' & evs & Hrun & _).
    { by vm_compute. }
    { exists Sample.url2. split_and!; by vm_compute. }
    destruct (run (get_issues_next (client Sample.gh)) 5 (GI_created (Some Sample.from_date))
                (Sample.world [(Sample.url1, Sample.page1_no_limit); (Sample.url2, Sample.page2)]
                   None []))
      as [[[ys st] g2] w2] eqn:E.
    assert (st = Raised (KeyError "x-ratelimit-remaining")) as ->.
    { apply (f_equal (λ x, x.1.1.2)) in E. vm_compute in E. done. }
    pose proof (run_ended_unique _ _ _ _ _ _ _ _ _ _ _ _ _ Hrun ltac:(done) E ltac:(done)).
    done.
  - destruct H as (n & g' & w' & evs & Hrun & _); [by vm_compute | by vm_compute |].
    destruct (run (get_issues_next (client Sample.gh)) 5 (GI_created (Some Sample.from_date))
                (Sample.world [(Sample.url1, Sample.page_only_page_first)] None []))
      as [[[ys st] g2] w2] eqn:E.
    assert (st = Raised IndexError) as ->.
    { apply (f_equal (λ x, x.1.1.2)) in E. vm_compute in E. done. }
    pose proof (run_ended_unique _ _ _ _ _ _ _ _ _ _ _ _ _ Hrun ltac:(done) E ltac:(done)).
    done.
Qed.

(** ** Every page is yielded *)

Lemma requests_of_app (a b : list event) :
  requests_of (a ++ b) = (requests_of a ++ requests_of b)%list.
Proof. apply omap_app. Qed.

Lemma pushes_of_app (a b : list event) :
  pushes_of (a ++ b) = (pushes_of a ++ pushes_of b)%list.
Proof. apply omap_app. Qed.

Lemma answers_app (nt : nat → Request → exn + Response) (k : nat) (a b : list Request) :
  answers nt k (a ++ b) = (answers nt k a ++ answers nt (k + List.length a) b)%list.
Proof.
  revert k. induction a as [|q a IH]; intros k; simpl.
  - by rewrite Nat.add_0_r.
  - rewrite IH. by replace (S k + List.length a)%nat with (k + S (List.length a))%nat by lia.
Qed.

Lemma get_issues_walk (self : GitHubClient) (n : nat) (g : get_issues_state) (w : State) :
  let '(ys, st, g', w') := run (get_issues_next self) n g w in
  ∃ evs rs tail,
    trace w' = (trace w ++ evs)%list
    ∧ answers (net w) (clock w) (requests_of evs) = ((inr <$> rs) ++ tail)%list
    ∧ match st with
      | Running => tail = [] ∧ ys = text <$> rs ∧ Forall (λ p, text p ≠ "") rs
                   ∧ (rs ≠ [] → next_request self g ≠ [])
      | Stopped => tail = [] ∧ stopped_after self g rs ys
                   ∧ (rs ≠ [] → next_request self g ≠ [])
      | Raised e => ys `prefix_of` (text <$> rs)
      end.
Proof.
  revert g w. induction n as [|n IH]; intros g w.
  - simpl. exists [], [], []. rewrite app_nil_r. by split_and!.
  - rewrite run_S.
    destruct (get_issues_next self g w) as [[sig g1] w1] eqn:Hstep.
    pose proof (get_issues_next_effects _ _ _ _ _ _ Hstep)
      as (Hn1 & _ & _ & Hc1 & evs1 & Ht1 & Hreq1 & _).
    pose proof (get_issues_next_outcome _ _ _ _ _ _ Hstep) as Hout.
    destruct sig as [raw| |e|]; [| | |done].
    + destruct Hout as (r & page & lp & Hans & -> & -> & Htext).
      specialize (IH (GI_suspended r page lp) w1).
      destruct (run (get_issues_next self) n (GI_suspended r page lp) w1)
        as [[[ys st] g2] w2].
      destruct IH as (evs & rs & tail & Ht & Hrs & Hst).
      assert (Hreq : next_request self g ≠ []).
      { intros E. by rewrite E in Hans. }
      exists (evs1 ++ evs)%list, (r :: rs), tail. split_and!.
      * rewrite Ht, Ht1. by rewrite <- List.app_assoc.
      * unfold requests_of in *. rewrite omap_app, Hreq1, answers_app, Hans.
        rewrite <- Hc1, <- Hn1, Hrs. done.
      * destruct st as [| |e].
        -- destruct Hst as (-> & -> & Hne & _). split_and!; try done. by constructor.
        -- destruct Hst as (-> & Hstop & Hnext). split_and!; try done.
           right. destruct Hstop as [(-> & Hno & ->)|(rs0 & r' & -> & Hall & Hlast)].
           ++ exists [], r. split_and!; try done. left. simpl in Hno.
              destruct (links r !! "next"); [done|]. by split_and!.
           ++ exists (r :: rs0), r'. split_and!; try done.
              ** constructor; [|done]. split; [done|].
                 assert (next_request self (GI_suspended r page lp) ≠ []) as Hr.
                 { apply Hnext. by destruct rs0. }
                 simpl in Hr. by destruct (links r !! "next").
              ** destruct Hlast as [(? & ? & ->)|(? & ->)]; [left|right]; by split_and!.
        -- simpl. by apply prefix_cons.
    + destruct Hout as [-> Hout]. exists evs1.
      destruct Hout as [Hnone|(r & Hans & Htext)].
      * exists [], []. rewrite Hreq1, Hnone. split_and!; try done. by left.
      * exists [r], []. rewrite Hreq1, Hans. split_and!; try done.
        -- right. exists [], r. split_and!; try done. by right.
        -- intros _ E. by rewrite E in Hans.
    + destruct Hout as [-> Hout]. exists evs1.
      destruct Hout as [Hans|(r & Hans)].
      * exists [], [inl e]. rewrite Hreq1, Hans. by split_and!.
      * exists [r], []. rewrite Hreq1, Hans. split_and!; try done. apply prefix_nil.
Qed.

(** A response whose diagnostics pass and whose body is empty ends the
    iteration, and is not yielded. *)
Lemma get_issues_next_first_empty (self : GitHubClient) (start : option datetime)
    (r : Response) (limit : string) (w : State) :
  net w (clock w) (get_request self (_get_issues_url self start)) = inr r →
  headers r !! "x-ratelimit-remaining" = Some limit →
  text r = "" →
  match links r !! "last" with
  | Some last_url => ∃ n, last_page_of last_url = inr n
  | None => True
  end →
  ∃ w', get_issues_next self (GI_created start) w = (StopIteration, GI_finished, w').
Proof.
  intros Hnet Hlim Htext Hlast.
  unfold get_issues_next, get_issues_first, read_last_page.
  unfold_m. simpl. rewrite Hnet. unfold_m. simpl. rewrite Hlim. simpl.
  destruct (links r !! "last") as [last_url|].
  - destruct Hlast as [n Hn]. unfold_m. rewrite Hn. simpl. rewrite Htext. simpl. eauto.
  - unfold_m. rewrite Htext. simpl. eauto.
Qed.

Lemma get_issues_next_page_empty (self : GitHubClient) (r r' : Response) (page last_page : Z)
    (url_next limit : string) (w : State) :
  links r !! "next" = Some url_next →
  net w (clock w) (get_request self url_next) = inr r' →
  headers r' !! "x-ratelimit-remaining" = Some limit →
  text r' = "" →
  ∃ w', get_issues_next self (GI_suspended r page (Some last_page)) w
        = (StopIteration, GI_finished, w').
Proof.
  intros Hnext Hnet Hlim Htext.
  unfold get_issues_next, get_issues_resume. rewrite Hnext.
  unfold_m. simpl. rewrite Hnet. unfold_m. simpl. rewrite Hlim. simpl.
  rewrite Htext. simpl. eauto.
Qed.

(** From the [yield] of a page on, along a walk whose diagnostics pass. *)
Lemma walk_resume (self : GitHubClient) (rs : list Response) (r : Response) (page : Z)
    (last_page : option Z) (w : State) :
  text r ≠ "" →
  walk self (net w) (clock w) r rs →
  Forall (λ p, is_Some (headers p !! "x-ratelimit-remaining")) rs →
  rs = [] ∨ is_Some last_page →
  ∃ w' evs,
    run (get_issues_next self) (S (List.length rs)) (GI_suspended r page last_page) w
    = (List.filter truthy (text <$> rs), Stopped, GI_finished, w')
    ∧ trace w' = (trace w ++ evs)%list
    ∧ answers (net w) (clock w) (requests_of evs) = inr <$> rs.
Proof.
  revert r page w. induction rs as [|r' rs IH]; intros r page w Htext Hwalk Hok Hlp.
  - destruct Hwalk as [?|Hnone]; [done|].
    rewrite run_S, get_issues_next_stop by done.
    exists w, []. by rewrite app_nil_r.
  - destruct Hwalk as (_ & u & Hnext & Hnet & Hwalk).
    apply Forall_cons in Hok as [[lim Hlim] Hok].
    destruct Hlp as [|[lp ->]]; [done|].
    destruct (decide (text r' = "")) as [Hempty|Hbody].
    + destruct (get_issues_next_page_empty self r r' page lp u lim w Hnext Hnet Hlim Hempty)
        as [w1 Hstep].
      pose proof (get_issues_next_effects _ _ _ _ _ _ Hstep)
        as (_ & _ & _ & _ & evs1 & Ht1 & Hreq1 & _).
      simpl in Hreq1. rewrite Hnext in Hreq1.
      destruct rs as [|r'' rs]; [|by destruct Hwalk as [? _]].
      exists w1, evs1. split_and!; [|done|].
      * rewrite run_S, Hstep. simpl. by rewrite Hempty.
      * rewrite Hreq1. simpl. by rewrite Hnet.
    + destruct (get_issues_next_page self r r' page lp u lim w Hnext Hnet Hlim Hbody)
        as [w1 Hstep].
      pose proof (get_issues_next_effects _ _ _ _ _ _ Hstep)
        as (Hn1 & _ & _ & Hc1 & evs1 & Ht1 & Hreq1 & _).
      simpl in Hc1, Hreq1. rewrite Hnext in Hc1, Hreq1. simpl in Hc1.
      destruct (IH r' (page + 1) w1) as (w' & evs & Hrun & Ht & Hans).
      { done. }
      { rewrite Hn1, Hc1. by replace (clock w + 1)%nat with (S (clock w)) by lia. }
      { done. }
      { right. by eexists. }
      exists w', (evs1 ++ evs)%list. split_and!.
      * change (List.length (r' :: rs)) with (S (List.length rs)).
        rewrite run_S, Hstep, Hrun. simpl.
        destruct (text r') eqn:E; [done|]. done.
      * rewrite Ht, Ht1. by rewrite <- List.app_assoc.
      * rewrite requests_of_app, answers_app, Hreq1. simpl. rewrite Hnet.
        rewrite Hn1, Hc1 in Hans.
        replace (clock w + 1)%nat with (S (clock w)) in * by lia.
        by rewrite Hans.
Qed.

(** C5, as amended.  First, of every run.  At any point of the
    iteration the pages yielded are the bodies of the responses
    received, in order, as long as the iteration goes on; every one of
    these bodies is non-empty text, the empty array [[]] included.  When
    the iteration stops, every response but the last had a body and a
    [next] link, and the last either has a body and no [next] link, and
    was yielded, or has an empty body, and was not.  When it raises, the
    pages yielded are bodies of the first responses received.

    Second, the iteration does end there.  Let the responses that
    following the [next] links brings be [r :: rs], the last of them
    being the first that has an empty body or no [next] link; let every
    one of them carry the rate-limit header, and let the first either
    carry a [last] link from which lines 154-155 read a page number, or
    carry none and be the only one.  Then [get_issues] receives exactly
    these responses, yields their bodies in order, the last one unless
    it is empty, and stops: with any larger number of steps the result
    is the same, and no request follows the last response. *)
Theorem every_page_with_a_body_is_yielded (self : GitHubClient) (start : option datetime)
    (w : State) :
  (∀ n,
     let '(ys, st, g', w') := run (get_issues_next self) n (GI_created start) w in
     ∃ evs rs tail,
       trace w' = (trace w ++ evs)%list
       ∧ answers (net w) (clock w) (requests_of evs) = ((inr <$> rs) ++ tail)%list
       ∧ match st with
         | Running => tail = [] ∧ ys = text <$> rs ∧ Forall (λ p, text p ≠ "") rs
         | Stopped =>
             tail = []
             ∧ ∃ rs0 r,
                 rs = (rs0 ++ [r])%list
                 ∧ Forall (λ p, text p ≠ "" ∧ is_Some (links p !! "next")) rs0
                 ∧ ((text r ≠ "" ∧ links r !! "next" = None ∧ ys = text <$> rs)
                    ∨ (text r = "" ∧ ys = text <$> rs0))
         | Raised e => ys `prefix_of` (text <$> rs)
         end)
  ∧ (∀ r rs,
       net w (clock w) (get_request self (_get_issues_url self start)) = inr r →
       walk self (net w) (S (clock w)) r rs →
       Forall (λ p, is_Some (headers p !! "x-ratelimit-remaining")) (r :: rs) →
       match links r !! "last" with
       | Some last_url => ∃ n, last_page_of last_url = inr n
       | None => rs = []
       end →
       ∃ w' evs,
         trace w' = (trace w ++ evs)%list
         ∧ answers (net w) (clock w) (requests_of evs) = inr <$> r :: rs
         ∧ ∀ m, (List.length (r :: rs) < m)%nat →
             run (get_issues_next self) m (GI_created start) w
             = (List.filter truthy (text <$> r :: rs), Stopped, GI_finished, w')).
Proof.
  split.
  - intros n.
    pose proof (get_issues_walk self n (GI_created start) w) as H.
    destruct (run (get_issues_next self) n (GI_created start) w) as [[[ys st] g'] w'].
    destruct H as (evs & rs & tail & Ht & Hans & Hst).
    exists evs, rs, tail. split_and!; try done.
    destruct st as [| |e]; [tauto| |done].
    destruct Hst as (-> & [(_ & Hno & _)|Hstop] & _); [done|]. by split.
  - intros r rs Hnet Hwalk Hok Hlast.
    apply Forall_cons in Hok as [[lim Hlim] Hok].
    destruct (decide (text r = "")) as [Hempty|Hbody].
    + destruct (get_issues_next_first_empty self start r lim w Hnet Hlim Hempty)
        as [w1 Hstep].
      { destruct (links r !! "last"); done. }
      pose proof (get_issues_next_effects _ _ _ _ _ _ Hstep)
        as (_ & _ & _ & _ & evs1 & Ht1 & Hreq1 & _).
      simpl in Hreq1.
      destruct rs as [|r' rs]; [|by destruct Hwalk as [? _]].
      exists w1, evs1. split_and!; [done| |].
      * rewrite Hreq1. simpl. by rewrite Hnet.
      * intros m Hm. apply (run_ended _ 1); [|done|simpl in Hm; lia].
        rewrite run_S, Hstep. simpl. by rewrite Hempty.
    + destruct (get_issues_next_first self start r lim w Hnet Hlim Hbody)
        as (w1 & lp & Hstep & Hlp).
      { destruct (links r !! "last"); done. }
      pose proof (get_issues_next_effects _ _ _ _ _ _ Hstep)
        as (Hn1 & _ & _ & Hc1 & evs1 & Ht1 & Hreq1 & _).
      simpl in Hc1, Hreq1.
      destruct (walk_resume self rs r 1 lp w1) as (w' & evs & Hrun & Ht & Hans).
      { done. }
      { rewrite Hn1, Hc1. by replace (clock w + 1)%nat with (S (clock w)) by lia. }
      { done. }
      { destruct (links r !! "last"); [right; by apply Hlp | by left]. }
      exists w', (evs1 ++ evs)%list. split_and!.
      * rewrite Ht, Ht1. by rewrite <- List.app_assoc.
      * rewrite requests_of_app, answers_app, Hreq1. simpl. rewrite Hnet.
        rewrite Hn1, Hc1 in Hans.
        replace (clock w + 1)%nat with (S (clock w)) in * by lia.
        by rewrite Hans.
      * intros m Hm. apply (run_ended _ (S (S (List.length rs)))); [|done|simpl in Hm; lia].
        rewrite run_S, Hstep, Hrun. simpl.
        destruct (text r) eqn:E; [done|]. done.
Qed.

Lemma every_page_with_a_body_is_yielded_witness :
  let w := Sample.world [(Sample.url1, Sample.page1); (Sample.url2, Sample.page_empty_next)]
             None [] in
  let self := client Sample.gh in
  let start := Some Sample.from_date in
  net w (clock w) (get_request self (_get_issues_url self start)) = inr Sample.page1
  ∧ walk self (net w) (S (clock w)) Sample.page1 [Sample.page_empty_next]
  ∧ Forall (λ p, is_Some (headers p !! "x-ratelimit-remaining"))
      [Sample.page1; Sample.page_empty_next]
  ∧ (∃ n, last_page_of Sample.url2 = inr n)
  ∧ ∃ w' evs,
      trace w' = (trace w ++ evs)%list
      ∧ answers (net w) (clock w) (requests_of evs)
        = inr <$> [Sample.page1; Sample.page_empty_next]
      ∧ ∀ m, (2 < m)%nat →
          run (get_issues_next self) m (GI_created start) w
          = (["[1]"], Stopped, GI_finished, w').
Proof.
  intros w self start.
  assert (H1 : net w (clock w) (get_request self (_get_issues_url self start)) = inr Sample.page1)
    by (vm_compute; reflexivity).
  assert (H2 : walk self (net w) (S (clock w)) Sample.page1 [Sample.page_empty_next]).
  { split; [done|]. exists Sample.url2. split; [by vm_compute|].
    split; [by vm_compute|]. by left. }
  assert (H3 : Forall (λ p, is_Some (headers p !! "x-ratelimit-remaining"))
                 [Sample.page1; Sample.page_empty_next])
    by (repeat constructor; by eexists).
  assert (H4 : ∃ n, last_page_of Sample.url2 = inr n)
    by (exists 2; vm_compute; reflexivity).
  split; [exact H1|]. split; [exact H2|]. split; [exact H3|]. split; [exact H4|].
  exact (proj2 (every_page_with_a_body_is_yielded self start w)
           Sample.page1 [Sample.page_empty_next] H1 H2 H3 H4).
Defined.

(** C5 as stated fails on four servers.  A first response with an empty
    body and a [next] link is requested and not yielded, and the
    iteration stops there.  After a first response without a [last]
    link the second page is requested and never yielded.  A first
    response without the rate-limit header, or with a [last] link that
    holds no [&page=], is not yielded either. *)
Lemma yields_every_page_fails :
  ¬ yields_every_page (client Sample.gh) (Some Sample.from_date)
      (Sample.world [(Sample.url1, Sample.page_empty_next); (Sample.url2, Sample.page2)] None [])
  ∧ ¬ yields_every_page (client Sample.gh) (Some Sample.from_date)
        (Sample.world [(Sample.url1, Sample.page1_no_last); (Sample.url2, Sample.page2)] None [])
  ∧ ¬ yields_every_page (client Sample.gh) (Some Sample.from_date)
        (Sample.world [(Sample.url1, Sample.page1_no_limit); (Sample.url2, Sample.page2)] None [])
  ∧ ¬ yields_every_page (client Sample.gh) (Some Sample.from_date)
        (Sample.world [(Sample.url1, Sample.page_only_page_first)] None []).
Proof.
  split_and!; intros H; unfold yields_every_page in H.
  - edestruct H with (n := 5%nat) (rs := [Sample.page_empty_next]) as [Hys _];
      [reflexivity | done | reflexivity | by vm_compute |].
    vm_compute in Hys. done.
  - edestruct H with (n := 5%nat) (rs := [Sample.page1_no_last; Sample.page2]) as [Hys _];
      [reflexivity | done | reflexivity | by vm_compute |].
    vm_compute in Hys. done.
  - edestruct H with (n := 5%nat) (rs := [Sample.page1_no_limit]) as [Hys _];
      [reflexivity | done | reflexivity | by vm_compute |].
    vm_compute in Hys. done.
  - edestruct H with (n := 5%nat) (rs := [Sample.page_only_page_first]) as [Hys _];
      [reflexivity | done | reflexivity | by vm_compute |].
    vm_compute in Hys. done.
Qed.

(** ** The live fetch *)

Section FetchFacts.
Context {item : Type} (json_loads : string → exn + list item) (self : GitHub).

Lemma fetch_page_effects (raw : string) (w : State) :
  fetch_page json_loads raw w
  = (json_loads raw,
     {| net := net w; clock := clock w;
        trace := (trace w ++ [EvPush raw; EvFlush])%list;
        cache := (λ entries, (entries ++ cache_queue w ++ [raw])%list) <$> cache w;
        cache_queue := [] |}).
Proof.
  unfold fetch_page, _push_cache_queue, _flush_cache_queue. unfold_m. simpl.
  rewrite <- List.app_assoc. simpl.
  destruct (json_loads raw); done.
Qed.

Lemma fetch_step_inv (w0 : State) (g : fetch_state) (w : State) :
  fetch_inv json_loads w0 g w →
  fetch_inv json_loads w0 (fetch_step json_loads self g w).1.2
    (fetch_step json_loads self g w).2.
Proof.
  destruct g as [d|gi|gi raw issues|]; simpl.
  - intros ->. unfold fetch_enter, _purge_cache_queue, get_issues. unfold_m. simpl.
    split_and!; try done. exists []. split_and!; try done.
    simpl. destruct (cache w0); simpl; [|done]. by rewrite app_nil_r.
  - intros (Hn & Hq & evs & Ht & Hc & Hs & Hfrom & _).
    destruct (get_issues_next (client self) gi w) as [[sig gi'] w1] eqn:Hstep.
    pose proof (get_issues_next_effects _ _ _ _ _ _ Hstep)
      as (Hn1 & Hs1 & Hq1 & Hc1 & evs1 & Ht1 & Hreq1 & Hpush1).
    pose proof (get_issues_next_outcome _ _ _ _ _ _ Hstep) as Hout.
    assert (Hreqs : requests_of (evs ++ evs1) = (requests_of evs ++ next_request (client self) gi)%list).
    { unfold requests_of in *. by rewrite omap_app, Hreq1. }
    assert (Hpushes : pushes_of (evs ++ evs1) = pushes_of evs).
    { unfold pushes_of in *. by rewrite omap_app, Hpush1, app_nil_r. }
    assert (Hfrom1 : Forall (λ raw, ∃ r, inr r ∈ answers (net w0) (clock w0)
                                             (requests_of (evs ++ evs1))
                                     ∧ raw = text r) (pushes_of (evs ++ evs1))).
    { rewrite Hpushes, Hreqs. eapply Forall_impl; [exact Hfrom|].
      intros raw' (r & Hin & ->). exists r. split; [|done].
      rewrite answers_app. apply elem_of_app. by left. }
    assert (Hbase : fetch_inv json_loads w0 F_finished w1).
    { split_and!; [congruence..|]. exists (evs ++ evs1)%list. split_and!; try done.
      - rewrite Ht1, Ht. by rewrite <- List.app_assoc.
      - rewrite Hreqs, length_app. lia.
      - rewrite Hpushes. congruence. }
    destruct sig as [raw| |e|]; simpl; [| done | done | done].
    destruct Hout as (r & page & lp & Hans & -> & -> & Htext).
    rewrite fetch_page_effects.
    assert (Hinv : fetch_inv json_loads w0 F_finished
              {| net := net w1; clock := clock w1;
                 trace := (trace w1 ++ [EvPush (text r); EvFlush])%list;
                 cache := (λ entries, (entries ++ cache_queue w1 ++ [text r])%list) <$> cache w1;
                 cache_queue := [] |}
            ∧ ∀ issues, json_loads (text r) = inr issues →
                fetch_inv json_loads w0 (F_items (GI_suspended r page lp) (text r) issues)
                  {| net := net w1; clock := clock w1;
                     trace := (trace w1 ++ [EvPush (text r); EvFlush])%list;
                     cache := (λ entries, (entries ++ cache_queue w1 ++ [text r])%list) <$> cache w1;
                     cache_queue := [] |}).
    { assert (Hcore : ∃ evs2,
          (trace w1 ++ [EvPush (text r); EvFlush])%list = (trace w0 ++ EvPurge :: evs2)%list
          ∧ clock w1 = (clock w0 + List.length (requests_of evs2))%nat
          ∧ ((λ entries, (entries ++ cache_queue w1 ++ [text r])%list) <$> cache w1)
            = (λ entries, (entries ++ pushes_of evs2)%list) <$> cache w0
          ∧ Forall (λ raw, ∃ r, inr r ∈ answers (net w0) (clock w0) (requests_of evs2)
                                ∧ raw = text r) (pushes_of evs2)
          ∧ evs2 = ((evs ++ evs1) ++ [EvPush (text r); EvFlush])%list).
      { exists ((evs ++ evs1) ++ [EvPush (text r); EvFlush])%list.
        assert (Hr2 : requests_of ((evs ++ evs1) ++ [EvPush (text r); EvFlush])
                      = requests_of (evs ++ evs1)).
        { unfold requests_of. rewrite (omap_app _ (evs ++ evs1)). simpl. by rewrite app_nil_r. }
        assert (Hp2 : pushes_of ((evs ++ evs1) ++ [EvPush (text r); EvFlush])
                      = (pushes_of evs ++ [text r])%list).
        { unfold pushes_of in *. rewrite (omap_app _ (evs ++ evs1)). simpl. by rewrite Hpushes. }
        destruct Hbase as (Hn2 & Hq2 & evs' & Ht2 & Hc2 & Hs2 & _).
        split_and!; try done.
        - rewrite Ht1, Ht. by rewrite <- !List.app_assoc.
        - rewrite Hr2, Hreqs, length_app. lia.
        - rewrite Hq2, Hs1, Hs, Hp2. simpl.
          destruct (cache w0); simpl; [|done]. by rewrite <- List.app_assoc.
        - rewrite Hp2, Hr2. apply Forall_app. split.
          + by rewrite Hpushes in Hfrom1.
          + constructor; [|done]. exists r. split; [|done].
            rewrite Hreqs, answers_app. apply elem_of_app. right.
            rewrite <- Hc, <- Hn, Hans. by left. }
      destruct Hcore as (evs2 & Ht3 & Hc3 & Hs3 & Hfrom3 & Hevs2).
      destruct Hbase as (Hn2 & _).
      split.
      - split_and!; try done. by exists evs2.
      - intros issues Hload. split_and!; try done. exists evs2. split_and!; try done.
        exists [], (evs ++ evs1)%list. by split. }
    destruct Hinv as [Hfin Hitems].
    destruct (json_loads (text r)) as [e|issues] eqn:Hload; simpl; [done|].
    by apply Hitems.
  - intros (Hn & Hq & evs & Ht & Hc & Hs & Hfrom & yielded & t & Hload & Hevs).
    destruct issues as [|issue issues]; simpl.
    + split_and!; try done. by exists evs.
    + split_and!; try done. exists evs. split_and!; try done.
      exists (yielded ++ [issue])%list, t. by rewrite <- List.app_assoc.
  - done.
Qed.

Lemma fetch_run_inv (from_date : option datetime) (w0 : State) (n : nat) :
  fetch_inv json_loads w0
    (run (fetch_step json_loads self) n (F_created from_date) w0).1.2
    (run (fetch_step json_loads self) n (F_created from_date) w0).2.
Proof.
  apply (run_preserves (fetch_step json_loads self) (fetch_inv json_loads w0)).
  - apply fetch_step_inv.
  - done.
Qed.

Lemma fetch_step_started (g : fetch_state) (w : State) (d : option datetime) :
  (fetch_step json_loads self g w).1.2 ≠ F_created d.
Proof.
  destruct g as [d'|gi|gi raw [|issue issues]|]; simpl; try done.
  destruct (get_issues_next (client self) gi w) as [[[raw| |e|] gi'] w1]; try done.
  rewrite fetch_page_effects. by destruct (json_loads raw).
Qed.

(** Only the inner loop yields. *)
Lemma fetch_step_yield (g g' : fetch_state) (w w' : State) (issue : item) :
  fetch_step json_loads self g w = (Yield issue, g', w') →
  ∃ issues_groups raw_issues issues,
    g = F_items issues_groups raw_issues (issue :: issues)
    ∧ g' = F_items issues_groups raw_issues issues ∧ w' = w.
Proof.
  destruct g as [d'|gi|gi raw [|i issues]|]; simpl; try done.
  - destruct (get_issues_next (client self) gi w) as [[[raw| |e|] gi'] w1]; try done.
    rewrite fetch_page_effects. by destruct (json_loads raw).
  - intros [= <- <- <-]. by eexists _, _, _.
Qed.

End FetchFacts.

(** C8.  As soon as a [fetch] has made its first step, the first thing
    it did was to purge the queue: the purge comes before every request
    and every push.  Whatever pages the queue still held from an earlier
    run, the store has since grown by exactly the pages pushed during
    this fetch, in order, and each of them is the body of a response
    received during this fetch. *)
Theorem purge_before_fetch {item : Type} (json_loads : string → exn + list item)
    (self : GitHub) (from_date : option datetime) (w0 : State) (n : nat) :
  let w := (run (fetch_step json_loads self) (S n) (F_created from_date) w0).2 in
  ∃ evs,
    trace w = (trace w0 ++ EvPurge :: evs)%list
    ∧ cache w = (λ entries, (entries ++ pushes_of evs)%list) <$> cache w0
    ∧ Forall (λ raw, ∃ r, inr r ∈ answers (net w0) (clock w0) (requests_of evs)
                          ∧ raw = text r) (pushes_of evs).
Proof.
  rewrite run_S.
  pose proof (fetch_step_inv json_loads self w0 (F_created from_date) w0 eq_refl) as H1.
  pose proof (fetch_step_started json_loads self (F_created from_date) w0) as H2.
  destruct (fetch_step json_loads self (F_created from_date) w0) as [[sig g1] w1] eqn:E.
  simpl in H1, H2.
  assert (sig = Continue) as ->.
  { simpl in E. unfold fetch_enter, _purge_cache_queue, get_issues in E. unfold_m.
    by injection E as <- _ _. }
  pose proof (run_preserves (fetch_step json_loads self)
    (λ g w, fetch_inv json_loads w0 g w ∧ ∀ d, g ≠ F_created d)) as Hrun.
  specialize (Hrun (λ g w H, conj (fetch_step_inv json_loads self w0 g w (proj1 H))
                               (fetch_step_started json_loads self g w)) n g1 w1 (conj H1 H2)).
  destruct (run (fetch_step json_loads self) n g1 w1) as [[[ys st] g] w].
  simpl in *. destruct Hrun as [Hinv Hg].
  destruct g as [d|gi|gi raw issues|]; [by destruct (Hg d)| | |].
  all: destruct Hinv as (_ & _ & evs & Ht & _ & Hs & Hfrom & _); by exists evs.
Qed.

(** C1.  Whenever a [fetch] hands an item to its consumer, the item
    belongs to the page [raw_issues] of the generator's frame; the last
    two things the fetch did were to push that page to the queue and to
    flush the queue, the queue is empty, and with a cache configured the
    last entry of the store is that page. *)
Theorem durability_before_exposure {item : Type} (json_loads : string → exn + list item)
    (self : GitHub) (from_date : option datetime) (w0 : State) (n : nat)
    (ys : list item) (g g' : fetch_state) (w w' : State) (issue : item) :
  run (fetch_step json_loads self) n (F_created from_date) w0 = (ys, Running, g, w) →
  fetch_step json_loads self g w = (Yield issue, g', w') →
  ∃ issues_groups raw_issues yielded issues t,
    g = F_items issues_groups raw_issues (issue :: issues)
    ∧ json_loads raw_issues = inr (yielded ++ issue :: issues)%list
    ∧ w' = w
    ∧ trace w = (t ++ [EvPush raw_issues; EvFlush])%list
    ∧ cache_queue w = []
    ∧ match cache w0 with
      | Some _ => ∃ entries, cache w = Some (entries ++ [raw_issues])%list
      | None => cache w = None
      end.
Proof.
  intros Hrun Hyield.
  pose proof (fetch_run_inv json_loads self from_date w0 n) as Hinv.
  rewrite Hrun in Hinv. simpl in Hinv.
  apply fetch_step_yield in Hyield as (gi & raw & issues & -> & -> & ->).
  destruct Hinv as (_ & Hq & evs & Ht & _ & Hs & _ & yielded & t & Hload & ->).
  exists gi, raw, yielded, issues, (trace w0 ++ EvPurge :: t)%list. split_and!; try done.
  - rewrite Ht. rewrite <- List.app_assoc. done.
  - rewrite Hs. unfold pushes_of. rewrite omap_app. simpl.
    destruct (cache w0) as [entries|]; simpl; [|done].
    eexists. by rewrite List.app_assoc.
Qed.

(** ** Replay *)

Section ReplayFacts.
Context {item : Type} (json_loads : string → exn + list item) (self : GitHub).

Lemma assemble_ended (pages : list string) : (assemble json_loads pages).2 ≠ Running.
Proof.
  induction pages as [|raw pages IH]; simpl; [done|].
  destruct (json_loads raw); [done|].
  by destruct (assemble json_loads pages).
Qed.

(** What a live fetch yields is what its pages decode to, and these
    pages are what it adds to the store. *)
Lemma fetch_run_pages (n : nat) (g : fetch_state) (w : State) (entries : list string) :
  cache w = Some entries →
  (∃ d, g = F_created d) ∨ cache_queue w = [] →
  let '(ys, st, g', w') := run (fetch_step json_loads self) n g w in
  ∃ pages,
    cache w' = Some (entries ++ pages)%list
    ∧ match st with
      | Running =>
          (ys ++ pending g')%list = (pending g ++ (assemble json_loads pages).1)%list
          ∧ (assemble json_loads pages).2 = Stopped
      | Stopped =>
          ys = (pending g ++ (assemble json_loads pages).1)%list
          ∧ (assemble json_loads pages).2 = Stopped
      | Raised e => ys = (pending g ++ (assemble json_loads pages).1)%list
      end.
Proof.
  revert g w entries. induction n as [|n IH]; intros g w entries Hs Hq.
  { simpl. exists []. rewrite !app_nil_r. by split_and!. }
  rewrite run_S. destruct g as [d|gi|gi raw [|issue issues]|]; simpl.
  - unfold fetch_enter, _purge_cache_queue, get_issues. unfold_m. simpl.
    apply (IH (F_pages (GI_created d))); [done | by right].
  - destruct Hq as [[d ?]|Hq]; [done|].
    destruct (get_issues_next (client self) gi w) as [[sig gi'] w1] eqn:Hstep.
    pose proof (get_issues_next_effects _ _ _ _ _ _ Hstep) as (_ & Hs1 & Hq1 & _).
    destruct sig as [raw| |e|].
    + rewrite fetch_page_effects, Hs1, Hq1, Hs, Hq. simpl.
      destruct (json_loads raw) as [e|issues] eqn:Hload.
      * exists [raw]. simpl. by rewrite Hload.
      * match goal with
        | |- context [run _ n ?g1 ?w2] => specialize (IH g1 w2 (entries ++ [raw])%list)
        end.
        destruct (run (fetch_step json_loads self) n _ _) as [[[ys st] g'] w'].
        destruct IH as (pages & Hs' & Hst); [done | by right |].
        exists (raw :: pages). split; [by rewrite Hs', <- List.app_assoc|].
        simpl in *. rewrite Hload.
        by destruct (assemble json_loads pages) as [its ast], st.
    + exists []. rewrite app_nil_r. split; [congruence|done].
    + exists []. rewrite app_nil_r. split; [congruence|done].
    + apply (IH (F_pages gi')); [congruence | right; congruence].
  - apply (IH (F_pages gi)); [done|]. destruct Hq as [[d ?]|Hq]; [done | by right].
  - specialize (IH (F_items gi raw issues) w entries Hs).
    destruct (run (fetch_step json_loads self) n _ _) as [[[ys st] g'] w'].
    destruct IH as (pages & Hs' & Hst).
    { destruct Hq as [[d ?]|Hq]; [done | by right]. }
    exists pages. split; [done|]. simpl in *.
    destruct st; [destruct Hst as [-> ?] | destruct Hst as [-> ?] | rewrite Hst]; done.
  - exists []. rewrite app_nil_r. done.
Qed.

Lemma replay_items (issues : list item) (k : nat) (cache_items : list string)
    (raw : string) (w : State) :
  run (fetch_from_cache_step json_loads self) (List.length issues + k)
    (FC_items cache_items raw issues) w
  = let '(ys, st, g', w') :=
      run (fetch_from_cache_step json_loads self) k (FC_items cache_items raw []) w in
    ((issues ++ ys)%list, st, g', w').
Proof.
  induction issues as [|issue issues IH]; simpl.
  - by destruct (run _ k _ w) as [[[ys st] g'] w'].
  - rewrite IH. by destruct (run _ k _ w) as [[[ys st] g'] w'].
Qed.

(** Replaying decodes the retrieved pages one after the other. *)
Lemma replay_pages (pages : list string) :
  ∃ m, ∀ w,
    run (fetch_from_cache_step json_loads self) m (FC_pages pages) w
    = (assemble json_loads pages, FC_finished, w).
Proof.
  induction pages as [|raw pages [m IH]].
  - by exists 1%nat.
  - destruct (json_loads raw) as [e|issues] eqn:Hload.
    + exists 1%nat. intros w. simpl. by rewrite Hload.
    + exists (S (List.length issues + S m)). intros w. rewrite run_S. simpl. rewrite Hload.
      rewrite replay_items, run_S. simpl. rewrite IH.
      by destruct (assemble json_loads pages).
Qed.

Lemma replay_store (pages : list string) :
  ∃ m, ∀ w k, cache w = Some pages → (m ≤ k)%nat →
    run (fetch_from_cache_step json_loads self) k FC_created w
    = (assemble json_loads pages, FC_finished, w).
Proof.
  destruct (replay_pages pages) as [m Hm]. exists (S m). intros w k Hs Hk.
  pose proof (assemble_ended pages) as Hend.
  destruct (assemble json_loads pages) as [ys st] eqn:E.
  apply (run_ended _ (S m)); [|done|done].
  rewrite run_S. simpl. unfold fetch_from_cache_enter. rewrite Hs. simpl.
  by rewrite Hm.
Qed.

End ReplayFacts.

(** C3, as amended.  Let a live fetch start on a backend whose store is empty, and
    let it run for any number of steps.  The store then holds exactly
    the pages the fetch pushed, in order.  Iterating [fetch_from_cache]
    on a backend with that store yields exactly what decoding these
    pages one after the other gives and ends the way the decoding ends;
    and that is what the live fetch yielded when it has ended, and
    starts with what it has yielded so far when it has not. *)
Theorem cache_round_trip {item : Type} (json_loads : string → exn + list item)
    (self : GitHub) (from_date : option datetime) (w0 : State) (n : nat) :
  cache w0 = Some [] →
  let '(ys, st, g, w) := run (fetch_step json_loads self) n (F_created from_date) w0 in
  ∃ evs m,
    trace w = (trace w0 ++ evs)%list
    ∧ cache w = Some (pushes_of evs)
    ∧ (∀ w1 k, cache w1 = Some (pushes_of evs) → (m ≤ k)%nat →
         run (fetch_from_cache_step json_loads self) k FC_created w1
         = (assemble json_loads (pushes_of evs), FC_finished, w1))
    ∧ match st with
      | Running => ys `prefix_of` (assemble json_loads (pushes_of evs)).1
      | Stopped => assemble json_loads (pushes_of evs) = (ys, Stopped)
      | Raised e => (assemble json_loads (pushes_of evs)).1 = ys
      end.
Proof.
  intros Hs0.
  pose proof (fetch_run_pages json_loads self n (F_created from_date) w0 [] Hs0
                (or_introl (ex_intro _ from_date eq_refl))) as Hpages.
  pose proof (fetch_run_inv json_loads self from_date w0 n) as Hinv.
  destruct (run (fetch_step json_loads self) n (F_created from_date) w0)
    as [[[ys st] g] w].
  destruct Hpages as (pages & Hs & Hst). simpl in Hs, Hinv.
  assert (∃ evs, trace w = (trace w0 ++ evs)%list ∧ pushes_of evs = pages)
    as (evs & Ht & <-).
  { destruct g as [d|gi|gi raw issues|]; simpl in Hinv.
    - subst w. exists []. rewrite app_nil_r. split; [done|]. simpl in *. congruence.
    - destruct Hinv as (_ & _ & evs & Ht & _ & Hs' & _). exists (EvPurge :: evs).
      split; [done|]. rewrite Hs0 in Hs'. simpl in *. congruence.
    - destruct Hinv as (_ & _ & evs & Ht & _ & Hs' & _). exists (EvPurge :: evs).
      split; [done|]. rewrite Hs0 in Hs'. simpl in *. congruence.
    - destruct Hinv as (_ & _ & evs & Ht & _ & Hs' & _). exists (EvPurge :: evs).
      split; [done|]. rewrite Hs0 in Hs'. simpl in *. congruence. }
  destruct (replay_store json_loads self (pushes_of evs)) as [m Hm].
  exists evs, m. split_and!; try done.
  simpl in Hst. destruct st as [| |e].
  - destruct Hst as [<- _]. by apply prefix_app_r.
  - destruct Hst as [-> Hst].
    by destruct (assemble json_loads (pushes_of evs)); simpl in *; subst.
  - by rewrite Hst.
Qed.

Lemma durability_before_exposure_witness :
  let w0 := Sample.world [(Sample.url1, Sample.page1); (Sample.url2, Sample.page2)]
              (Some []) ["stale"] in
  let r := run (fetch_step Sample.loads Sample.gh) 2 (F_created (Some Sample.from_date)) w0 in
  let s := fetch_step Sample.loads Sample.gh r.1.2 r.2 in
  r = (r.1.1.1, Running, r.1.2, r.2)
  ∧ s = (Yield "1", s.1.2, s.2)
  ∧ ∃ issues_groups raw_issues yielded issues t,
      r.1.2 = F_items issues_groups raw_issues ("1" :: issues)
      ∧ Sample.loads raw_issues = inr (yielded ++ "1" :: issues)%list
      ∧ s.2 = r.2
      ∧ trace r.2 = (t ++ [EvPush raw_issues; EvFlush])%list
      ∧ cache_queue r.2 = []
      ∧ ∃ entries, cache r.2 = Some (entries ++ [raw_issues])%list.
Proof.
  intros w0 r s.
  assert (H1 : r = (r.1.1.1, Running, r.1.2, r.2)) by (vm_compute; reflexivity).
  assert (H2 : s = (Yield "1", s.1.2, s.2)) by (vm_compute; reflexivity).
  split_and!; try done.
  exact (durability_before_exposure Sample.loads Sample.gh (Some Sample.from_date) w0 2
           r.1.1.1 r.1.2 s.1.2 r.2 s.2 "1" H1 H2).
Defined.

Lemma cache_round_trip_witness :
  let w0 := Sample.world [(Sample.url1, Sample.page1); (Sample.url2, Sample.page2)]
              (Some []) ["stale"] in
  cache w0 = Some []
  ∧ let '(ys, st, g, w) :=
        run (fetch_step Sample.loads Sample.gh) 20 (F_created (Some Sample.from_date)) w0 in
      ∃ evs m,
        trace w = (trace w0 ++ evs)%list
        ∧ cache w = Some (pushes_of evs)
        ∧ (∀ w1 k, cache w1 = Some (pushes_of evs) → (m ≤ k)%nat →
             run (fetch_from_cache_step Sample.loads Sample.gh) k FC_created w1
             = (assemble Sample.loads (pushes_of evs), FC_finished, w1))
        ∧ match st with
          | Running => ys `prefix_of` (assemble Sample.loads (pushes_of evs)).1
          | Stopped => assemble Sample.loads (pushes_of evs) = (ys, Stopped)
          | Raised e => (assemble Sample.loads (pushes_of evs)).1 = ys
          end.
Proof.
  intros w0. split; [reflexivity|].
  exact (cache_round_trip Sample.loads Sample.gh (Some Sample.from_date) w0 20 eq_refl).
Defined.

(** On a store that is empty when the fetch starts, the round trip holds
    in the words of the claim. *)
Lemma replay_equals_live_on_empty_store {item : Type}
    (json_loads : string → exn + list item) (self : GitHub)
    (from_date : option datetime) (w0 : State) :
  cache w0 = Some [] → replay_equals_live json_loads self from_date w0.
Proof.
  intros Hs0 n ys g w Hrun.
  pose proof (fetch_run_pages json_loads self n (F_created from_date) w0 [] Hs0
                (or_introl (ex_intro _ from_date eq_refl))) as Hpages.
  rewrite Hrun in Hpages. destruct Hpages as (pages & Hs & Hys & Hst).
  simpl in Hs, Hys.
  destruct (replay_store json_loads self pages) as [m Hm].
  exists m, FC_finished, w. rewrite (Hm w m Hs) by lia.
  destruct (assemble json_loads pages) as [zs st]. simpl in *. by subst.
Qed.

(** C3 as stated fails on a store that already holds a page, as the
    store of a command run without [--clean-cache] does: the live fetch
    yields the items of the two pages it received, the replay yields
    those of the old page first. *)
Lemma replay_equals_live_fails :
  ¬ replay_equals_live Sample.loads Sample.gh (Some Sample.from_date)
      (Sample.world [(Sample.url1, Sample.page1); (Sample.url2, Sample.page2)]
         (Some ["[0]"]) []).
Proof.
  intros H.
  destruct (run (fetch_step Sample.loads Sample.gh) 20 (F_created (Some Sample.from_date))
              (Sample.world [(Sample.url1, Sample.page1); (Sample.url2, Sample.page2)]
                 (Some ["[0]"]) []))
    as [[[ys st] g] w] eqn:E.
  assert (ys = ["1"; "2"] ∧ st = Stopped) as [-> ->].
  { apply (f_equal (λ x, x.1.1)) in E. vm_compute in E. by injection E as <- <-. }
  assert (Hs : cache w = Some ["[0]"; "[1]"; "[2]"]).
  { apply (f_equal (λ x, cache x.2)) in E. vm_compute in E. done. }
  destruct (H _ _ _ _ E) as (m & g' & w' & Hreplay).
  destruct (replay_store Sample.loads Sample.gh ["[0]"; "[1]"; "[2]"]) as [m0 Hm0].
  specialize (Hm0 w m0 Hs ltac:(lia)).
  assert (Hnot : (assemble Sample.loads ["[0]"; "[1]"; "[2]"]).2 ≠ Running)
    by apply assemble_ended.
  destruct (assemble Sample.loads ["[0]"; "[1]"; "[2]"]) as [zs st] eqn:Ea.
  assert (zs = ["0"; "1"; "2"]) as ->.
  { apply (f_equal fst) in Ea. vm_compute in Ea. done. }
  pose proof (run_ended_unique _ _ _ _ _ _ _ _ _ _ _ _ _ Hreplay ltac:(done) Hm0 Hnot).
  done.
Qed.

(** * Further properties of the client *)

(** The events of a log line or of a request: what [get_issues] may do
    to the outside. *)
Lemma get_issues_next_events (self : GitHubClient) (g g' : get_issues_state)
    (w w' : State) (sig : signal string) :
  get_issues_next self g w = (sig, g', w') →
  ∃ evs, trace w' = (trace w ++ evs)%list
    ∧ Forall (λ e, match e with EvDebug _ | EvGet _ => True | _ => False end) evs.
Proof.
  unfold get_issues_next, get_issues_first, get_issues_resume, read_last_page,
    get_issues_loop.
  eval_m.
  all: intros [= <- <- <-]; simpl; rewrite <- ?List.app_assoc.
  all: try (eexists; split; [done|]; by repeat constructor).
  all: exists []; by rewrite app_nil_r.
Qed.

(** X5.  The client never touches the cache: however long it is driven,
    the store and the queue are as they were, and all it did to the
    outside was to log and to send requests. *)
Theorem get_issues_leaves_cache_alone (self : GitHubClient) (n : nat)
    (g : get_issues_state) (w : State) :
  let w' := (run (get_issues_next self) n g w).2 in
  cache w' = cache w ∧ cache_queue w' = cache_queue w
  ∧ ∃ evs, trace w' = (trace w ++ evs)%list
      ∧ Forall (λ e, match e with EvDebug _ | EvGet _ => True | _ => False end) evs.
Proof.
  apply (run_preserves (get_issues_next self)
    (λ _ w', cache w' = cache w ∧ cache_queue w' = cache_queue w
       ∧ ∃ evs, trace w' = (trace w ++ evs)%list
           ∧ Forall (λ e, match e with EvDebug _ | EvGet _ => True | _ => False end) evs)).
  - intros g1 w1 (Hc & Hq & evs & Ht & Hev).
    destruct (get_issues_next self g1 w1) as [[sig g2] w2] eqn:E. simpl.
    pose proof (get_issues_next_effects _ _ _ _ _ _ E) as (_ & Hc2 & Hq2 & _).
    apply get_issues_next_events in E as (evs2 & Ht2 & Hev2).
    split_and!; try congruence.
    exists (evs ++ evs2)%list. split; [|by apply Forall_app].
    rewrite Ht2, Ht. by rewrite <- List.app_assoc.
  - split_and!; try done. exists []. by rewrite app_nil_r.
Qed.

(** X1.  One request per page, and none ahead of the consumer: while
    the iteration is suspended the client has sent exactly as many
    requests as it has yielded pages since, and once it has ended it
    has sent at most one more. *)
Theorem get_issues_requests_on_demand (self : GitHubClient) (n : nat)
    (g : get_issues_state) (w : State) :
  let '(ys, st, g', w') := run (get_issues_next self) n g w in
  ∃ evs, trace w' = (trace w ++ evs)%list
    ∧ match st with
      | Running => List.length (requests_of evs) = List.length ys
      | _ => (List.length (requests_of evs) ≤ S (List.length ys))%nat
      end.
Proof.
  revert g w. induction n as [|n IH]; intros g w.
  - simpl. exists []. by rewrite app_nil_r.
  - rewrite run_S.
    destruct (get_issues_next self g w) as [[sig g1] w1] eqn:Hstep.
    pose proof (get_issues_next_effects _ _ _ _ _ _ Hstep)
      as (_ & _ & _ & _ & evs1 & Ht1 & Hreq1 & _).
    pose proof (get_issues_next_outcome _ _ _ _ _ _ Hstep) as Hout.
    assert (Hone : (List.length (next_request self g) ≤ 1)%nat).
    { destruct g as [start|r page lp|]; simpl; [lia| |lia].
      destruct (links r !! "next"); simpl; lia. }
    destruct sig as [raw| |e|]; [| | |done].
    + destruct Hout as (r & page & lp & Hans & _).
      assert (List.length (next_request self g) = 1%nat) as Hlen.
      { destruct (next_request self g) as [|q [|q' l]]; simpl in *; try done. }
      specialize (IH g1 w1).
      destruct (run (get_issues_next self) n g1 w1) as [[[ys st] g2] w2].
      destruct IH as (evs & Ht & Hst).
      exists (evs1 ++ evs)%list. split.
      * rewrite Ht, Ht1. by rewrite <- List.app_assoc.
      * unfold requests_of in *. rewrite omap_app, length_app, Hreq1, Hlen. simpl.
        destruct st; lia.
    + exists evs1. split; [done|]. rewrite Hreq1. simpl. lia.
    + exists evs1. split; [done|]. rewrite Hreq1. simpl. lia.
Qed.

(** X4.  A failure of the transport is not retried and not swallowed:
    when the request that the next step sends raises [e], the step
    raises [e], nothing more is yielded, and that request was the only
    thing sent. *)
Theorem get_issues_transport_failure (self : GitHubClient) (g : get_issues_state)
    (w : State) (q : Request) (e : exn) (n : nat) :
  next_request self g = [q] →
  net w (clock w) q = inl e →
  ∃ w' evs,
    run (get_issues_next self) (S n) g w = ([], Raised e, GI_finished, w')
    ∧ trace w' = (trace w ++ evs)%list ∧ requests_of evs = [q].
Proof.
  intros Hq Hnet. rewrite run_S.
  destruct (get_issues_next self g w) as [[sig g1] w1] eqn:Hstep.
  pose proof (get_issues_next_effects _ _ _ _ _ _ Hstep)
    as (_ & _ & _ & _ & evs1 & Ht1 & Hreq1 & _).
  pose proof (get_issues_next_outcome _ _ _ _ _ _ Hstep) as Hout.
  rewrite Hq in Hout, Hreq1. simpl in Hout. rewrite Hnet in Hout.
  destruct sig as [raw| |e'|]; [| | |done].
  - by destruct Hout as (r & page & lp & [=] & _).
  - destruct Hout as [_ [[=]|(r & [=] & _)]].
  - destruct Hout as [-> [[= <-]|(r & [=])]]. by exists w1, evs1.
Qed.

Lemma get_issues_transport_failure_witness :
  let w := Sample.world [] None [] in
  let self := client Sample.gh in
  let g := GI_created (Some Sample.from_date) in
  next_request self g = [get_request self Sample.url1]
  ∧ net w (clock w) (get_request self Sample.url1) = inl (RequestException "not found")
  ∧ ∃ w' evs,
      run (get_issues_next self) 3 g w
      = ([], Raised (RequestException "not found"), GI_finished, w')
      ∧ trace w' = (trace w ++ evs)%list
      ∧ requests_of evs = [get_request self Sample.url1].
Proof.
  intros w self g.
  assert (H1 : next_request self g = [get_request self Sample.url1])
    by (vm_compute; reflexivity).
  assert (H2 : net w (clock w) (get_request self Sample.url1)
               = inl (RequestException "not found")) by (vm_compute; reflexivity).
  split_and!; try done.
  exact (get_issues_transport_failure self g w _ _ 2 H1 H2).
Defined.

(** X2.  A first response without the rate-limit header makes line 150
    raise [KeyError] before anything is yielded. *)
Theorem get_issues_without_rate_limit (self : GitHubClient) (start : option datetime)
    (w : State) (r : Response) (n : nat) :
  net w (clock w) (get_request self (_get_issues_url self start)) = inr r →
  headers r !! "x-ratelimit-remaining" = None →
  ∃ w', run (get_issues_next self) (S n) (GI_created start) w
        = ([], Raised (KeyError "x-ratelimit-remaining"), GI_finished, w').
Proof.
  intros Hnet Hlim. rewrite run_S.
  unfold get_issues_next, get_issues_first. unfold_m. simpl. rewrite Hnet.
  unfold_m. simpl. rewrite Hlim. simpl. eauto.
Qed.

Lemma get_issues_without_rate_limit_witness :
  let w := Sample.world [(Sample.url1, Sample.page1_no_limit)] None [] in
  let self := client Sample.gh in
  let start := Some Sample.from_date in
  net w (clock w) (get_request self (_get_issues_url self start)) = inr Sample.page1_no_limit
  ∧ headers Sample.page1_no_limit !! "x-ratelimit-remaining" = None
  ∧ ∃ w', run (get_issues_next self) 4 (GI_created start) w
          = ([], Raised (KeyError "x-ratelimit-remaining"), GI_finished, w').
Proof.
  intros w self start.
  assert (H1 : net w (clock w) (get_request self (_get_issues_url self start))
               = inr Sample.page1_no_limit) by (vm_compute; reflexivity).
  assert (H2 : headers Sample.page1_no_limit !! "x-ratelimit-remaining" = None)
    by (vm_compute; reflexivity).
  split_and!; try done.
  exact (get_issues_without_rate_limit self start w Sample.page1_no_limit 3 H1 H2).
Defined.

(** X3.  When the first response has a body, a [next] link and no
    [last] link, the first page is yielded, the second page is requested
    and received, and line 170 raises [TypeError]: the second page is
    never yielded. *)
Theorem get_issues_without_last_link (self : GitHubClient) (start : option datetime)
    (w : State) (r r' : Response) (limit url_next : string) (n : nat) :
  net w (clock w) (get_request self (_get_issues_url self start)) = inr r →
  headers r !! "x-ratelimit-remaining" = Some limit →
  text r ≠ "" →
  links r !! "last" = None →
  links r !! "next" = Some url_next →
  net w (S (clock w)) (get_request self url_next) = inr r' →
  ∃ w' evs,
    run (get_issues_next self) (S (S n)) (GI_created start) w
    = ([text r], Raised TypeError, GI_finished, w')
    ∧ trace w' = (trace w ++ evs)%list
    ∧ requests_of evs
      = [get_request self (_get_issues_url self start); get_request self url_next].
Proof.
  intros Hnet Hlim Htext Hlast Hnext Hnet'.
  destruct (get_issues_next_first self start r limit w Hnet Hlim Htext)
    as (w1 & lp & Hstep & _); [by rewrite Hlast|].
  assert (lp = None) as ->.
  { revert Hstep. unfold get_issues_next, get_issues_first, read_last_page.
    unfold_m. simpl. rewrite Hnet. unfold_m. simpl. rewrite Hlim, Hlast. simpl.
    destruct (text r); [done|]. simpl. by intros [= <- _]. }
  pose proof (get_issues_next_effects _ _ _ _ _ _ Hstep)
    as (Hn1 & _ & _ & Hc1 & evs1 & Ht1 & Hreq1 & _).
  simpl in Hc1, Hreq1.
  rewrite run_S, Hstep, run_S.
  destruct (get_issues_next self (GI_suspended r 1 None) w1) as [[sig g2] w2] eqn:Hstep2.
  pose proof (get_issues_next_effects _ _ _ _ _ _ Hstep2)
    as (_ & _ & _ & _ & evs2 & Ht2 & Hreq2 & _).
  simpl in Hreq2. rewrite Hnext in Hreq2.
  assert (sig = Raise TypeError ∧ g2 = GI_finished) as [-> ->].
  { revert Hstep2. unfold get_issues_next, get_issues_resume. rewrite Hnext.
    unfold_m. simpl. rewrite Hn1, Hc1.
    replace (clock w + 1)%nat with (S (clock w)) by lia. rewrite Hnet'. simpl.
    by intros [= <- <- _]. }
  exists w2, (evs1 ++ evs2)%list. split_and!; [done| |].
  - rewrite Ht2, Ht1. by rewrite <- List.app_assoc.
  - unfold requests_of in *. by rewrite omap_app, Hreq1, Hreq2.
Qed.

Lemma get_issues_without_last_link_witness :
  let w := Sample.world [(Sample.url1, Sample.page1_no_last); (Sample.url2, Sample.page2)]
             None [] in
  let self := client Sample.gh in
  let start := Some Sample.from_date in
  net w (clock w) (get_request self (_get_issues_url self start)) = inr Sample.page1_no_last
  ∧ headers Sample.page1_no_last !! "x-ratelimit-remaining" = Some "59"
  ∧ text Sample.page1_no_last ≠ ""
  ∧ links Sample.page1_no_last !! "last" = None
  ∧ links Sample.page1_no_last !! "next" = Some Sample.url2
  ∧ net w (S (clock w)) (get_request self Sample.url2) = inr Sample.page2
  ∧ ∃ w' evs,
      run (get_issues_next self) 5 (GI_created start) w
      = (["[1]"], Raised TypeError, GI_finished, w')
      ∧ trace w' = (trace w ++ evs)%list
      ∧ requests_of evs
        = [get_request self (_get_issues_url self start); get_request self Sample.url2].
Proof.
  intros w self start.
  assert (H1 : net w (clock w) (get_request self (_get_issues_url self start))
               = inr Sample.page1_no_last) by (vm_compute; reflexivity).
  assert (H2 : headers Sample.page1_no_last !! "x-ratelimit-remaining" = Some "59")
    by (vm_compute; reflexivity).
  assert (H3 : text Sample.page1_no_last ≠ "") by (by vm_compute).
  assert (H4 : links Sample.page1_no_last !! "last" = None) by (vm_compute; reflexivity).
  assert (H5 : links Sample.page1_no_last !! "next" = Some Sample.url2)
    by (vm_compute; reflexivity).
  assert (H6 : net w (S (clock w)) (get_request self Sample.url2) = inr Sample.page2)
    by (vm_compute; reflexivity).
  split_and!; try done.
  exact (get_issues_without_last_link self start w Sample.page1_no_last Sample.page2
           "59" Sample.url2 3 H1 H2 H3 H4 H5 H6).
Defined.

(** ** Reading the page count *)

Lemma split_rounds_head (n : nat) (sep s : string) :
  split_rounds n sep s !! 0%nat
  = Some (match cut sep s with Some (a, _) => a | None => s end)
  ∨ (n = 0%nat ∧ split_rounds n sep s !! 0%nat = Some s).
Proof.
  destruct n as [|n]; simpl; [by right|]. left.
  by destruct (cut sep s) as [[a b]|].
Qed.

Lemma cut_empty (sep : string) : sep ≠ "" → cut sep "" = None.
Proof. by destruct sep. Qed.

Lemma split_head (sep s : string) :
  sep ≠ "" →
  split sep s !! 0%nat = Some (match cut sep s with Some (a, _) => a | None => s end).
Proof.
  intros Hsep. unfold split.
  destruct (split_rounds_head (String.length s) sep s) as [H|[Hlen H]]; [done|].
  rewrite H. destruct s; [|done]. by rewrite cut_empty.
Qed.

Lemma drop_chars_app (p s : string) : drop_chars (String.length p) (p +:+ s) = s.
Proof. induction p as [|a p IH]; [done|]. exact IH. Qed.

(** [cut] finds the leftmost occurrence. *)
Lemma cut_leftmost (sep s p r : string) :
  cut sep s = Some (p, r) →
  ∀ a b, s = a +:+ sep +:+ b → (String.length p ≤ String.length a)%nat.
Proof.
  revert p r. induction s as [|c s IH]; intros p r; simpl.
  - destruct (starts_with sep ""); [|done]. intros [= <- _] a b _. simpl. lia.
  - destruct (starts_with sep (String c s)) eqn:E.
    + intros [= <- _] a b _. simpl. lia.
    + destruct (cut sep s) as [[p' r']|] eqn:Hcut; [|done].
      intros [= <- <-] a b Hs. destruct a as [|c' a].
      * change ("" +:+ sep +:+ b) with (sep +:+ b) in Hs.
        rewrite Hs, starts_with_app in E. done.
      * change (String c' a +:+ sep +:+ b) with (String c' (a +:+ sep +:+ b)) in Hs.
        injection Hs as _ Hs. specialize (IH p' r' eq_refl a b Hs). simpl. lia.
Qed.

Lemma cut_at (sep pre rest : string) :
  (∀ a b, pre +:+ sep +:+ rest = a +:+ sep +:+ b →
     (String.length pre ≤ String.length a)%nat) →
  cut sep (pre +:+ sep +:+ rest) = Some (pre, rest).
Proof.
  induction pre as [|c pre IH]; intros Hleft.
  - change ("" +:+ sep +:+ rest) with (sep +:+ rest).
    destruct (sep +:+ rest) eqn:E; simpl; rewrite <- E, starts_with_app;
      by rewrite drop_chars_app.
  - change (String c pre +:+ sep +:+ rest) with (String c (pre +:+ sep +:+ rest)) in *.
    simpl. destruct (starts_with sep (String c (pre +:+ sep +:+ rest))) eqn:E.
    + apply starts_with_drop in E.
      specialize (Hleft "" _ E). simpl in Hleft. lia.
    + rewrite IH; [done|]. intros a b Hab.
      specialize (Hleft (String c a) b). simpl in Hleft.
      change (String c a +:+ sep +:+ b) with (String c (a +:+ sep +:+ b)) in Hleft.
      rewrite Hab in Hleft. specialize (Hleft eq_refl). lia.
Qed.

Lemma cut_amp_cons (c : ascii) (s : string) :
  cut "&" (String c s)
  = if Ascii.eqb "&" c then Some ("", s)
    else match cut "&" s with
         | Some (a, b) => Some (String c a, b)
         | None => None
         end.
Proof.
  cbn [cut starts_with drop_chars String.length].
  destruct (Ascii.eqb "&" c); by cbn [andb].
Qed.

(** The text up to the first [&] of [d ++ tail] is [d], when [d] holds
    no [&] and [tail] is empty or starts with one. *)
Lemma cut_amp_after (d tail : string) :
  Forall (λ c, c ≠ "&"%char) (list_ascii_of_string d) →
  tail = "" ∨ (∃ t, tail = "&" +:+ t) →
  match cut "&" (d +:+ tail) with Some (a, _) => a | None => d +:+ tail end = d.
Proof.
  intros Hd Htail. induction d as [|c d IH].
  - destruct Htail as [->|[t ->]]; done.
  - simpl in Hd. apply Forall_cons in Hd as [Hc Hd]. specialize (IH Hd).
    change (String c d +:+ tail) with (String c (d +:+ tail)). rewrite cut_amp_cons.
    destruct (Ascii.eqb "&" c) eqn:E; [by apply Ascii.eqb_eq in E|].
    destruct (cut "&" (d +:+ tail)) as [[a b]|]; by f_equal.
Qed.

(** Cutting a text short at a later [&] does not move its first [&]. *)
Lemma cut_amp_prefix (seg z : string) :
  match cut "&" seg with Some (a, _) => a | None => seg end
  = match cut "&" (seg +:+ "&" +:+ z) with
    | Some (a, _) => a
    | None => seg +:+ "&" +:+ z
    end.
Proof.
  induction seg as [|c seg IH]; [done|].
  change (String c seg +:+ "&" +:+ z) with (String c (seg +:+ "&" +:+ z)).
  rewrite !cut_amp_cons.
  destruct (Ascii.eqb "&" c); [done|].
  destruct (cut "&" seg) as [[a b]|], (cut "&" (seg +:+ "&" +:+ z)) as [[a' b']|];
    by f_equal.
Qed.

Lemma digit_not_space (c : ascii) : is_digit c = true → is_space c = false.
Proof. destruct c as [[] [] [] [] [] [] [] []]; by vm_compute. Qed.

Lemma lstrip_id (l : list ascii) :
  match l with [] => True | c :: _ => is_space c = false end → lstrip l = l.
Proof. destruct l as [|c l]; simpl; [done|]. by intros ->. Qed.

Lemma strip_id (l : list ascii) :
  match l with [] => True | c :: _ => is_space c = false end →
  match rev l with [] => True | c :: _ => is_space c = false end →
  strip l = l.
Proof.
  intros H1 H2. unfold strip. rewrite (lstrip_id l H1), (lstrip_id (rev l) H2).
  apply rev_involutive.
Qed.

Lemma uint_chars_digits (d : Decimal.uint) :
  Forall (λ c, is_digit c = true ∧ c ≠ "&"%char)
    (list_ascii_of_string (NilEmpty.string_of_uint d)).
Proof. induction d; simpl; constructor; try done; by vm_compute. Qed.

Lemma digits_cons_digit (acc : Z) (sep_before : bool) (c : ascii) (l : list ascii) :
  is_digit c = true →
  digits acc sep_before (c :: l) = digits (10 * acc + digit_value c) false l.
Proof. intros H. cbn [digits]. by rewrite H. Qed.

Lemma digits_of_uint_acc (d : Decimal.uint) (acc : positive) :
  digits (Z.pos acc) false (list_ascii_of_string (NilEmpty.string_of_uint d))
  = Some (Z.pos (Pos.of_uint_acc d acc)).
Proof.
  revert acc. induction d; intros acc;
    cbn [NilEmpty.string_of_uint list_ascii_of_string Pos.of_uint_acc]; [done|..].
  all: rewrite digits_cons_digit by (by vm_compute).
  all: rewrite <- IHd; f_equal.
  all: match goal with
       | |- context [digit_value ?c] =>
           let v := eval vm_compute in (digit_value c) in
           change (digit_value c) with v
       end; lia.
Qed.

Lemma digits_of_uint (d : Decimal.uint) (sep_before : bool) :
  d ≠ Decimal.Nil ∨ sep_before = false →
  digits 0 sep_before (list_ascii_of_string (NilEmpty.string_of_uint d))
  = Some (Z.of_N (Pos.of_uint d)).
Proof.
  revert sep_before. induction d; intros b Hb;
    cbn [NilEmpty.string_of_uint list_ascii_of_string Pos.of_uint].
  { by destruct Hb as [? | ->]. }
  { rewrite digits_cons_digit by (by vm_compute). apply IHd. by right. }
  all: rewrite digits_cons_digit by (by vm_compute).
  all: cbn [Z.of_N]; rewrite <- digits_of_uint_acc; f_equal.
Qed.

Lemma uint_chars_strip (d : Decimal.uint) (pre : list ascii) :
  d ≠ Decimal.Nil →
  match pre with [] => True | c :: _ => is_space c = false end →
  strip (pre ++ list_ascii_of_string (NilEmpty.string_of_uint d))
  = (pre ++ list_ascii_of_string (NilEmpty.string_of_uint d))%list.
Proof.
  intros Hnil Hpre. pose proof (uint_chars_digits d) as Hdig.
  assert (Hne : list_ascii_of_string (NilEmpty.string_of_uint d) ≠ []).
  { by destruct d. }
  apply strip_id.
  - destruct pre as [|c pre]; [|done]. simpl.
    destruct (list_ascii_of_string _) as [|c l]; [done|].
    apply Forall_cons in Hdig as [[Hc _] _]. by apply digit_not_space.
  - rewrite rev_app_distr. apply Forall_rev in Hdig.
    destruct (rev (list_ascii_of_string _)) as [|c l] eqn:Er.
    + apply (f_equal (@rev ascii)) in Er. by rewrite rev_involutive in Er.
    + apply Forall_cons in Hdig as [[Hc _] _]. simpl. by apply digit_not_space.
Qed.

Lemma count_digits_uint (d : Decimal.uint) :
  count_digits (list_ascii_of_string (NilEmpty.string_of_uint d)) = Decimal.nb_digits d.
Proof.
  induction d; cbn [NilEmpty.string_of_uint list_ascii_of_string Decimal.nb_digits]; [done|..].
  all: cbn [count_digits];
    match goal with
    | |- context [is_digit ?c] =>
        let v := eval vm_compute in (is_digit c) in change (is_digit c) with v
    end; by rewrite IHd.
Qed.

(** A numeral without leading zeros is at least the power of ten of its
    length less one. *)
Lemma of_uint_acc_lower (d : Decimal.uint) (acc : positive) :
  Z.pos acc * 10 ^ Z.of_nat (Decimal.nb_digits d) ≤ Z.pos (Pos.of_uint_acc d acc).
Proof.
  revert acc. induction d; intros acc; cbn [Pos.of_uint_acc Decimal.nb_digits]; [lia|..].
  all: etrans; [|apply IHd].
  all: rewrite Nat2Z.inj_succ, Z.pow_succ_r by lia.
  all: assert (0 < 10 ^ Z.of_nat (Decimal.nb_digits d)) by (apply Z.pow_pos_nonneg; lia).
  all: nia.
Qed.

Lemma to_uint_digits (p : positive) (k : nat) :
  Z.pos p < 10 ^ Z.of_nat k → (Decimal.nb_digits (Pos.to_uint p) ≤ k)%nat.
Proof.
  intros Hp.
  pose proof (DecimalPos.Unsigned.of_to p) as Hval.
  pose proof (DecimalPos.Unsigned.to_of (Pos.to_uint p)) as Hnorm.
  rewrite Hval in Hnorm. cbn [N.to_uint] in Hnorm.
  pose proof (DecimalPos.Unsigned.to_uint_nonzero p) as Hnz.
  pose proof (DecimalFacts.nzhead_nonzero (Pos.to_uint p)) as Hhead.
  assert (Hfix : Decimal.nzhead (Pos.to_uint p) = Pos.to_uint p).
  { unfold Decimal.unorm in Hnorm.
    by destruct (Decimal.nzhead (Pos.to_uint p)) eqn:E. }
  rewrite Hfix in Hhead.
  destruct (Pos.to_uint p) as [|d|d|d|d|d|d|d|d|d|d] eqn:E.
  { cbn [Decimal.nb_digits]. lia. }
  { by destruct (Hhead d). }
  all: cbn [Pos.of_uint] in Hval; injection Hval as Hval.
  all: match type of Hval with
       | Pos.of_uint_acc ?d' ?acc = _ =>
           pose proof (of_uint_acc_lower d' acc) as Hlow;
           destruct (decide (Decimal.nb_digits d' < k)%nat) as [|Hge];
             [cbn [Decimal.nb_digits]; lia|exfalso];
           assert (10 ^ Z.of_nat k ≤ 10 ^ Z.of_nat (Decimal.nb_digits d'))
             by (apply Z.pow_le_mono_r; lia)
       end.
  all: rewrite Hval in Hlow; nia.
Qed.

(** [int] reads back what [str] writes, for a number of at most
    [max_str_digits] digits. *)
Lemma int_str (n : Z) : Z.abs n < 10 ^ max_str_digits → int (str n) = Some n.
Proof.
  intros Hn.
  unfold int, str, NilZero.string_of_int, Z.to_int.
  destruct n as [|p|p]; [done| |].
  - pose proof (DecimalPos.Unsigned.to_uint_nonnil p) as Hnil.
    pose proof (DecimalPos.Unsigned.of_to p) as Hval.
    pose proof (to_uint_digits p 4300 Hn) as Hlen.
    assert (Hs : NilZero.string_of_uint (Pos.to_uint p)
                 = NilEmpty.string_of_uint (Pos.to_uint p)).
    { unfold NilZero.string_of_uint. by destruct (Pos.to_uint p). }
    pose proof (uint_chars_strip _ [] Hnil I) as Hst. cbn [app] in Hst.
    rewrite Hs, Hst.
    transitivity (numeral (list_ascii_of_string (NilEmpty.string_of_uint (Pos.to_uint p)))).
    { by destruct (Pos.to_uint p). }
    unfold numeral. rewrite count_digits_uint.
    destruct (Z.leb_spec (Z.of_nat (Decimal.nb_digits (Pos.to_uint p))) max_str_digits)
      as [_|Hlt]; [|unfold max_str_digits in Hlt; lia].
    rewrite digits_of_uint by (by left). by rewrite Hval.
  - pose proof (DecimalPos.Unsigned.to_uint_nonnil p) as Hnil.
    pose proof (DecimalPos.Unsigned.of_to p) as Hval.
    pose proof (to_uint_digits p 4300 Hn) as Hlen.
    assert (Hs : NilZero.string_of_uint (Pos.to_uint p)
                 = NilEmpty.string_of_uint (Pos.to_uint p)).
    { unfold NilZero.string_of_uint. by destruct (Pos.to_uint p). }
    pose proof (uint_chars_strip _ ["-"%char] Hnil eq_refl) as Hst. cbn [app] in Hst.
    rewrite Hs. cbn [list_ascii_of_string]. rewrite Hst.
    unfold numeral. rewrite count_digits_uint.
    destruct (Z.leb_spec (Z.of_nat (Decimal.nb_digits (Pos.to_uint p))) max_str_digits)
      as [_|Hlt]; [|unfold max_str_digits in Hlt; lia].
    rewrite digits_of_uint by (by left). by rewrite Hval.
Qed.

Lemma str_no_amp (n : Z) :
  Forall (λ c, c ≠ "&"%char) (list_ascii_of_string (str n)).
Proof.
  assert (Hu : ∀ d, Forall (λ c, c ≠ "&"%char)
                      (list_ascii_of_string (NilZero.string_of_uint d))).
  { intros d. unfold NilZero.string_of_uint.
    pose proof (uint_chars_digits d) as Hd.
    destruct d; try (eapply Forall_impl; [exact Hd|]; by intros c [_ ?]).
    by repeat constructor. }
  unfold str, NilZero.string_of_int. destruct (Z.to_int n); [done|].
  cbn [list_ascii_of_string]. by constructor.
Qed.

Lemma index_split_first (sep s : string) :
  sep ≠ "" →
  index (split sep s) 0 = inr (match cut sep s with Some (a, _) => a | None => s end).
Proof. intros Hsep. unfold index. by rewrite split_head. Qed.

Lemma index_split_second (sep s pre rest : string) :
  sep ≠ "" →
  cut sep s = Some (pre, rest) →
  ∃ seg, index (split sep s) 1 = inr seg
    ∧ (seg = rest ∨ ∃ b, rest = seg +:+ sep +:+ b).
Proof.
  intros Hsep Hcut. unfold index, split.
  destruct (String.length s) as [|k] eqn:Hlen.
  { destruct s; [|done]. by rewrite cut_empty in Hcut. }
  simpl. rewrite Hcut. simpl.
  destruct k as [|k]; simpl; [eauto|].
  destruct (cut sep rest) as [[a b]|] eqn:E2; simpl; [|eauto].
  exists a. split; [done|]. right. exists b. by apply cut_app.
Qed.

(** X8.  The page count is read back from a well-formed [last] link:
    when the first [&page=] of the link is followed by the decimal form
    of [n], of at most [max_str_digits] digits, and then by the end of
    the link or by [&], lines 154-155 give [n]. *)
Theorem last_page_of_reads_number (pre tail : string) (n : Z) :
  (∀ a b, pre +:+ "&page=" +:+ str n +:+ tail = a +:+ "&page=" +:+ b →
     (String.length pre ≤ String.length a)%nat) →
  tail = "" ∨ (∃ t, tail = "&" +:+ t) →
  Z.abs n < 10 ^ max_str_digits →
  last_page_of (pre +:+ "&page=" +:+ str n +:+ tail) = inr n.
Proof.
  intros Hleft Htail Hn.
  pose proof (cut_at "&page=" pre (str n +:+ tail) Hleft) as Hcut.
  pose proof (cut_amp_after (str n) tail (str_no_amp n) Htail) as Hamp.
  destruct (index_split_second "&page=" _ _ _ ltac:(done) Hcut) as (seg & Hsecond & Hseg).
  unfold last_page_of. rewrite Hsecond, index_split_first by done.
  assert (match cut "&" seg with Some (a, _) => a | None => seg end = str n) as ->.
  { destruct Hseg as [->|[b Hb]]; [done|].
    rewrite (cut_amp_prefix seg ("page=" +:+ b)).
    change (seg +:+ "&" +:+ "page=" +:+ b) with (seg +:+ "&page=" +:+ b).
    by rewrite <- Hb. }
  by rewrite int_str.
Qed.

Lemma last_page_of_reads_number_witness :
  let pre := "https://api.github.com/repositories/1/issues?per_page=30&state=all" in
  (∀ a b, pre +:+ "&page=" +:+ str 12 +:+ "&sort=updated" = a +:+ "&page=" +:+ b →
     (String.length pre ≤ String.length a)%nat)
  ∧ Z.abs 12 < 10 ^ max_str_digits
  ∧ last_page_of (pre +:+ "&page=" +:+ str 12 +:+ "&sort=updated") = inr 12.
Proof.
  intros pre.
  assert (H1 : ∀ a b, pre +:+ "&page=" +:+ str 12 +:+ "&sort=updated" = a +:+ "&page=" +:+ b →
                 (String.length pre ≤ String.length a)%nat).
  { apply (cut_leftmost "&page=" _ pre (str 12 +:+ "&sort=updated")).
    vm_compute. reflexivity. }
  assert (H2 : Z.abs 12 < 10 ^ max_str_digits) by (vm_compute; reflexivity).
  split; [exact H1|]. split; [exact H2|].
  exact (last_page_of_reads_number pre "&sort=updated" 12 H1
           (or_intror (ex_intro _ "sort=updated" eq_refl)) H2).
Defined.

(** X7.  Lines 154-155 raise [IndexError] exactly when the link holds
    no [&page=]. *)
Theorem last_page_of_index_error (last_url : string) :
  last_page_of last_url = inl IndexError
  ↔ ∀ pre rest, last_url ≠ pre +:+ "&page=" +:+ rest.
Proof.
  split.
  - intros Herr pre rest ->. revert Herr.
    pose proof (cut_finds "&page=" pre rest) as Hfind.
    destruct (cut "&page=" (pre +:+ "&page=" +:+ rest)) as [[a b]|] eqn:Hcut; [|done].
    destruct (index_split_second "&page=" _ _ _ ltac:(done) Hcut) as (seg & Hsecond & _).
    unfold last_page_of. rewrite Hsecond, index_split_first by done.
    by destruct (int _).
  - intros Hno. unfold last_page_of, index, split.
    destruct (String.length last_url) as [|k]; cbn [split_rounds]; [done|].
    destruct (cut "&page=" last_url) as [[a b]|] eqn:E; [|done].
    apply cut_app in E. by destruct (Hno a b).
Qed.

(** * Further properties of the backend *)

(** The client reads the network and its clock and nothing else: on two
    states that agree on them it does the same, and adds the same events
    to either trace. *)
Lemma get_issues_next_frame (self : GitHubClient) (g : get_issues_state) (w1 w2 : State) :
  net w1 = net w2 → clock w1 = clock w2 →
  ∃ sig g' evs k,
    get_issues_next self g w1
    = (sig, g', {| net := net w1; clock := k; trace := (trace w1 ++ evs)%list;
                   cache := cache w1; cache_queue := cache_queue w1 |})
    ∧ get_issues_next self g w2
      = (sig, g', {| net := net w2; clock := k; trace := (trace w2 ++ evs)%list;
                     cache := cache w2; cache_queue := cache_queue w2 |}).
Proof.
  destruct w1 as [n1 c1 t1 s1 q1], w2 as [n2 c2 t2 s2 q2]. simpl. intros -> ->.
  unfold get_issues_next, get_issues_first, get_issues_resume, read_last_page,
    get_issues_loop.
  destruct g as [start|r page lp|].
  - unfold_m. simpl. destruct (n2 c2 _) as [e|r]; simpl.
    { eexists _, _, [_; _], _. rewrite <- !List.app_assoc. by split. }
    unfold_m. simpl. destruct (headers r !! _) as [lim|]; simpl.
    2:{ eexists _, _, [_; _], _. rewrite <- !List.app_assoc. by split. }
    destruct (links r !! "last") as [last_url|]; unfold_m; simpl.
    + destruct (last_page_of last_url) as [e|lp]; simpl.
      { eexists _, _, [_; _; _], _. rewrite <- !List.app_assoc. by split. }
      destruct (truthy (text r)); simpl;
        eexists _, _, [_; _; _; _], _; rewrite <- !List.app_assoc; by split.
    + destruct (truthy (text r)); simpl;
        eexists _, _, [_; _; _], _; rewrite <- !List.app_assoc; by split.
  - destruct (links r !! "next") as [url_next|]; unfold_m; simpl.
    2:{ eexists _, _, [], _. rewrite !app_nil_r. by split. }
    destruct (n2 c2 _) as [e|r']; simpl.
    { eexists _, _, [_], _. by split. }
    destruct lp as [lp|]; simpl.
    2:{ eexists _, _, [_], _. by split. }
    unfold_m. simpl. destruct (headers r' !! _) as [lim|]; simpl.
    2:{ eexists _, _, [_; _], _. rewrite <- !List.app_assoc. by split. }
    destruct (truthy (text r')); simpl;
      eexists _, _, [_; _; _], _; rewrite <- !List.app_assoc; by split.
  - eexists _, _, [], _. rewrite !app_nil_r. by split.
Qed.

Section BackendFacts.
Context {item : Type} (json_loads : string → exn + list item) (self : GitHub).

(** A step of [fetch] on two states that agree outside the cache. *)
Lemma fetch_step_frame (g : fetch_state) (w1 w2 : State) :
  net w1 = net w2 → clock w1 = clock w2 → trace w1 = trace w2 →
  let r1 := fetch_step json_loads self g w1 in
  let r2 := fetch_step json_loads self g w2 in
  r1.1 = r2.1 ∧ net r1.2 = net r2.2 ∧ clock r1.2 = clock r2.2 ∧ trace r1.2 = trace r2.2.
Proof.
  intros Hn Hc Ht. destruct g as [d|gi|gi raw [|issue issues]|]; simpl; try done.
  - by rewrite Ht.
  - destruct (get_issues_next_frame (client self) gi w1 w2 Hn Hc)
      as (sig & gi' & evs & k & -> & ->).
    destruct sig as [raw'| |e|]; simpl; try (by rewrite Ht).
    rewrite !fetch_page_effects. simpl.
    destruct (json_loads raw'); simpl; by rewrite Ht.
Qed.

(** X9.  The cache has no say in what a fetch yields: on two states
    with the same network, clock and trace, whatever their stores and
    queues, the same items are yielded, the iteration stands the same
    way, and the same requests, log lines and queue calls are made. *)
Theorem fetch_ignores_cache_contents (n : nat) (g : fetch_state) (w1 w2 : State) :
  net w1 = net w2 → clock w1 = clock w2 → trace w1 = trace w2 →
  let r1 := run (fetch_step json_loads self) n g w1 in
  let r2 := run (fetch_step json_loads self) n g w2 in
  r1.1 = r2.1 ∧ trace r1.2 = trace r2.2.
Proof.
  revert g w1 w2. induction n as [|n IH]; intros g w1 w2 Hn Hc Ht; [done|].
  cbn zeta. rewrite !run_S.
  pose proof (fetch_step_frame g w1 w2 Hn Hc Ht) as (Hsig & Hn' & Hc' & Ht').
  destruct (fetch_step json_loads self g w1) as [[sig1 g1] w1'],
           (fetch_step json_loads self g w2) as [[sig2 g2] w2'].
  simpl in *. injection Hsig as <- <-.
  specialize (IH g1 w1' w2' Hn' Hc' Ht'). cbn zeta in IH.
  destruct sig1 as [issue| |e|]; simpl; try done.
  destruct (run _ n g1 w1') as [[[ys1 st1] g1'] w1''],
           (run _ n g1 w2') as [[[ys2 st2] g2'] w2'']. simpl in *.
  destruct IH as [[= <- <- <-] IHt]. done.
Qed.

Lemma fetch_items (issues : list item) (k : nat) (gi : get_issues_state)
    (raw : string) (w : State) :
  run (fetch_step json_loads self) (List.length issues + k) (F_items gi raw issues) w
  = let '(ys, st, g', w') :=
      run (fetch_step json_loads self) k (F_items gi raw []) w in
    ((issues ++ ys)%list, st, g', w').
Proof.
  induction issues as [|issue issues IH]; simpl.
  - by destruct (run _ k _ w) as [[[ys st] g'] w'].
  - rewrite IH. by destruct (run _ k _ w) as [[[ys st] g'] w'].
Qed.

Lemma fetch_follows_client (n : nat) (gi gi' : get_issues_state) (wc wc' wf : State)
    (ps : list string) (st : status) :
  run (get_issues_next (client self)) n gi wc = (ps, st, gi', wc') →
  st ≠ Running →
  net wc = net wf → clock wc = clock wf →
  ∃ m wf',
    run (fetch_step json_loads self) m (F_pages gi) wf
    = ((assemble json_loads ps).1,
       match (assemble json_loads ps).2 with Stopped => st | ended => ended end,
       F_finished, wf').
Proof.
  revert gi wc wf ps. induction n as [|n IH]; intros gi wc wf ps Hrun Hst Hn Hc.
  { simpl in Hrun. congruence. }
  rewrite run_S in Hrun.
  destruct (get_issues_next_frame (client self) gi wc wf Hn Hc)
    as (sig & gi1 & evs & k & Hc1 & Hf1).
  rewrite Hc1 in Hrun.
  destruct sig as [raw| |e|].
  - destruct (run _ n gi1 _) as [[[ps' st'] gi2] wc2] eqn:Hrun'.
    injection Hrun as <- <- <- <-.
    destruct (json_loads raw) as [e|issues] eqn:Hload.
    + exists 1%nat. eexists. rewrite run_S. simpl. rewrite Hf1, fetch_page_effects, Hload.
      done.
    + match type of Hrun' with
      | run _ _ _ ?w1 = _ =>
          destruct (IH gi1 w1
            {| net := net wf; clock := k;
               trace := ((trace wf ++ evs) ++ [EvPush raw; EvFlush])%list;
               cache := (λ entries, (entries ++ cache_queue wf ++ [raw])%list) <$> cache wf;
               cache_queue := [] |} ps' Hrun' Hst Hn eq_refl) as (m & wf' & Hm)
      end.
      exists (S (List.length issues + S m)), wf'.
      rewrite run_S. simpl. rewrite Hf1, fetch_page_effects, Hload. simpl.
      rewrite fetch_items, run_S. simpl. rewrite Hm.
      by destruct (assemble json_loads ps') as [its ast].
  - injection Hrun as <- <- <- <-. exists 1%nat. eexists. rewrite run_S. simpl.
    by rewrite Hf1.
  - injection Hrun as <- <- <- <-. exists 1%nat. eexists. rewrite run_S. simpl.
    by rewrite Hf1.
  - pose proof (get_issues_next_outcome _ _ _ _ _ _ Hc1) as [].
Qed.

(** X10.  The fetch is the client followed by the decoder: when the
    client on its own yields the pages [ps] and then ends, the fetch in
    the same state yields the items these pages decode to, and ends as
    the client does, unless a page does not decode, in which case it
    ends there with the decoding error. *)
Theorem fetch_decodes_client_pages (n : nat) (from_date : option datetime)
    (w w' : State) (gi' : get_issues_state) (ps : list string) (st : status) :
  run (get_issues_next (client self)) n (GI_created from_date) w = (ps, st, gi', w') →
  st ≠ Running →
  ∃ m, ∀ k, (m ≤ k)%nat →
    (run (fetch_step json_loads self) k (F_created from_date) w).1.1
    = ((assemble json_loads ps).1,
       match (assemble json_loads ps).2 with Stopped => st | ended => ended end).
Proof.
  intros Hrun Hst.
  destruct (fetch_follows_client n _ _ w w'
              {| net := net w; clock := clock w; trace := (trace w ++ [EvPurge])%list;
                 cache := cache w; cache_queue := [] |} ps st Hrun Hst eq_refl eq_refl)
    as (m & wf' & Hm).
  exists (S m). intros k Hk.
  assert (Hrun1 : run (fetch_step json_loads self) (S m) (F_created from_date) w
                  = ((assemble json_loads ps).1,
                     match (assemble json_loads ps).2 with Stopped => st | ended => ended end,
                     F_finished, wf')).
  { rewrite run_S. exact Hm. }
  rewrite (run_ended _ (S m) k _ _ _ _ _ _ Hrun1); [done| |done].
  pose proof (assemble_ended json_loads ps).
  by destruct (assemble json_loads ps) as [its []].
Qed.

(** X11.  A page that does not decode is already in the store when the
    fetch raises: at the head of the loop, when the client yields a page
    on which [json.loads] raises [e], the fetch raises [e] after it has
    pushed and flushed that page, which is then the last entry of the
    store. *)
Theorem fetch_stores_before_decoding (from_date : option datetime) (w0 w w1 : State)
    (n : nat) (ys : list item) (gi gi' : get_issues_state) (raw : string) (e : exn) :
  run (fetch_step json_loads self) n (F_created from_date) w0 = (ys, Running, F_pages gi, w) →
  get_issues_next (client self) gi w = (Yield raw, gi', w1) →
  json_loads raw = inl e →
  ∃ w2,
    fetch_step json_loads self (F_pages gi) w = (Raise e, F_finished, w2)
    ∧ trace w2 = (trace w1 ++ [EvPush raw; EvFlush])%list
    ∧ cache w2 = (λ entries, (entries ++ [raw])%list) <$> cache w.
Proof.
  intros Hrun Hstep Hload.
  pose proof (fetch_run_inv json_loads self from_date w0 n) as Hinv.
  rewrite Hrun in Hinv. simpl in Hinv. destruct Hinv as (_ & Hq & _).
  pose proof (get_issues_next_effects _ _ _ _ _ _ Hstep) as (_ & Hs1 & Hq1 & _).
  simpl. rewrite Hstep, fetch_page_effects, Hload. eexists. split; [done|].
  simpl. by rewrite Hs1, Hq1, Hq.
Qed.

Lemma assemble_app (pages1 pages2 : list string) :
  assemble json_loads (pages1 ++ pages2)
  = match assemble json_loads pages1 with
    | (ys1, Stopped) =>
        let '(ys2, st) := assemble json_loads pages2 in ((ys1 ++ ys2)%list, st)
    | ended => ended
    end.
Proof.
  induction pages1 as [|raw pages1 IH]; simpl.
  - by destruct (assemble json_loads pages2).
  - destruct (json_loads raw) as [e|issues]; [done|]. rewrite IH.
    destruct (assemble json_loads pages1) as [ys1 [| |e]]; try done.
    destruct (assemble json_loads pages2) as [ys2 st]. by rewrite <- List.app_assoc.
Qed.

(** X13.  The store accumulates over fetches.  When a fetch that runs to
    its end starts on a store whose pages decode to [old], replaying the
    store afterwards yields [old] followed by what this fetch
    yielded. *)
Theorem replay_after_a_second_fetch (from_date : option datetime) (w0 w : State)
    (entries : list string) (old ys : list item) (n : nat) (g : fetch_state) :
  cache w0 = Some entries →
  assemble json_loads entries = (old, Stopped) →
  run (fetch_step json_loads self) n (F_created from_date) w0 = (ys, Stopped, g, w) →
  ∃ m, ∀ k, (m ≤ k)%nat →
    run (fetch_from_cache_step json_loads self) k FC_created w
    = ((old ++ ys)%list, Stopped, FC_finished, w).
Proof.
  intros Hs Hold Hrun.
  pose proof (fetch_run_pages json_loads self n (F_created from_date) w0 entries Hs
                (or_introl (ex_intro _ from_date eq_refl))) as Hpages.
  rewrite Hrun in Hpages. destruct Hpages as (pages & Hs' & -> & Hst). simpl.
  destruct (replay_store json_loads self (entries ++ pages)) as [m Hm].
  exists m. intros k Hk. rewrite (Hm w k Hs' Hk), assemble_app, Hold.
  by destruct (assemble json_loads pages) as [its ast]; simpl in *; subst.
Qed.

(** X14.  Replaying reads and never writes: no step of
    [fetch_from_cache] changes the state, so that nothing is requested,
    logged or stored, and replaying again from the state reached gives
    the same items again. *)
Theorem replay_is_read_only (n : nat) (g : fetch_from_cache_state) (w : State) :
  (run (fetch_from_cache_step json_loads self) n g w).2 = w
  ∧ run (fetch_from_cache_step json_loads self) n g
      (run (fetch_from_cache_step json_loads self) n g w).2
    = run (fetch_from_cache_step json_loads self) n g w.
Proof.
  assert (H : (run (fetch_from_cache_step json_loads self) n g w).2 = w).
  { apply (run_preserves (fetch_from_cache_step json_loads self) (λ _ w', w' = w));
      [|done].
    intros g1 w1 ->. destruct g1 as [|[|raw items]|items raw [|issue issues]|]; simpl;
      try done.
    - unfold fetch_from_cache_enter. by destruct (cache w).
    - by destruct (json_loads raw). }
  split; [done|]. by rewrite H.
Qed.

(** X15.  Replaying stops at the first page that does not decode: it
    yields the items of the pages before it and raises the decoding
    error, whatever the store holds after that page. *)
Theorem replay_stops_at_bad_page (w : State) (good rest : list string) (bad : string)
    (ys : list item) (e : exn) :
  cache w = Some (good ++ bad :: rest)%list →
  assemble json_loads good = (ys, Stopped) →
  json_loads bad = inl e →
  ∃ m, ∀ k, (m ≤ k)%nat →
    run (fetch_from_cache_step json_loads self) k FC_created w
    = (ys, Raised e, FC_finished, w).
Proof.
  intros Hs Hgood Hbad.
  destruct (replay_store json_loads self (good ++ bad :: rest)) as [m Hm].
  exists m. intros k Hk. rewrite (Hm w k Hs Hk), assemble_app, Hgood. simpl.
  by rewrite Hbad, app_nil_r.
Qed.

End BackendFacts.

Lemma fetch_ignores_cache_contents_witness :
  let pages := [(Sample.url1, Sample.page1); (Sample.url2, Sample.page2)] in
  let w1 := Sample.world pages None [] in
  let w2 := Sample.world pages (Some ["[0]"]) ["stale"] in
  let r1 := run (fetch_step Sample.loads Sample.gh) 20 (F_created (Some Sample.from_date)) w1 in
  let r2 := run (fetch_step Sample.loads Sample.gh) 20 (F_created (Some Sample.from_date)) w2 in
  net w1 = net w2 ∧ clock w1 = clock w2 ∧ trace w1 = trace w2
  ∧ r1.1 = r2.1 ∧ trace r1.2 = trace r2.2.
Proof.
  intros pages w1 w2 r1 r2. split_and!; [reflexivity..| |].
  - exact (proj1 (fetch_ignores_cache_contents Sample.loads Sample.gh 20
                    (F_created (Some Sample.from_date)) w1 w2 eq_refl eq_refl eq_refl)).
  - exact (proj2 (fetch_ignores_cache_contents Sample.loads Sample.gh 20
                    (F_created (Some Sample.from_date)) w1 w2 eq_refl eq_refl eq_refl)).
Defined.

Lemma fetch_decodes_client_pages_witness :
  let w := Sample.world [(Sample.url1, Sample.page1); (Sample.url2, Sample.page2)] None [] in
  let r := run (get_issues_next (client Sample.gh)) 5 (GI_created (Some Sample.from_date)) w in
  r = (["[1]"; "[2]"], Stopped, r.1.2, r.2)
  ∧ ∃ m, ∀ k, (m ≤ k)%nat →
      (run (fetch_step Sample.loads Sample.gh) k (F_created (Some Sample.from_date)) w).1.1
      = ((assemble Sample.loads ["[1]"; "[2]"]).1,
         match (assemble Sample.loads ["[1]"; "[2]"]).2 with
         | Stopped => Stopped
         | ended => ended
         end).
Proof.
  intros w r.
  assert (H1 : r = (["[1]"; "[2]"], Stopped, r.1.2, r.2)) by (vm_compute; reflexivity).
  split; [done|].
  exact (fetch_decodes_client_pages Sample.loads Sample.gh 5 (Some Sample.from_date)
           w r.2 r.1.2 ["[1]"; "[2]"] Stopped H1 ltac:(done)).
Defined.

Lemma fetch_stores_before_decoding_witness :
  let w0 := Sample.world [(Sample.url1, Sample.page_bad)] (Some ["[0]"]) ["stale"] in
  let gi := GI_created (Some Sample.from_date) in
  let r := run (fetch_step Sample.loads Sample.gh) 1 (F_created (Some Sample.from_date)) w0 in
  let s := get_issues_next (client Sample.gh) gi r.2 in
  r = ([], Running, F_pages gi, r.2)
  ∧ s = (Yield "oops", s.1.2, s.2)
  ∧ Sample.loads "oops" = inl ValueError
  ∧ ∃ w2,
      fetch_step Sample.loads Sample.gh (F_pages gi) r.2 = (Raise ValueError, F_finished, w2)
      ∧ trace w2 = (trace s.2 ++ [EvPush "oops"; EvFlush])%list
      ∧ cache w2 = (λ entries, (entries ++ ["oops"])%list) <$> cache r.2.
Proof.
  intros w0 gi r s.
  assert (H1 : r = ([], Running, F_pages gi, r.2)) by (vm_compute; reflexivity).
  assert (H2 : s = (Yield "oops", s.1.2, s.2)) by (vm_compute; reflexivity).
  assert (H3 : Sample.loads "oops" = inl ValueError) by reflexivity.
  split; [exact H1|]. split; [exact H2|]. split; [exact H3|].
  exact (fetch_stores_before_decoding Sample.loads Sample.gh (Some Sample.from_date)
           w0 r.2 s.2 1 [] gi s.1.2 "oops" ValueError H1 H2 H3).
Defined.

Lemma replay_after_a_second_fetch_witness :
  let w0 := Sample.world [(Sample.url1, Sample.page1); (Sample.url2, Sample.page2)]
              (Some ["[0]"]) [] in
  let r := run (fetch_step Sample.loads Sample.gh) 20 (F_created (Some Sample.from_date)) w0 in
  cache w0 = Some ["[0]"]
  ∧ assemble Sample.loads ["[0]"] = (["0"], Stopped)
  ∧ r = (["1"; "2"], Stopped, r.1.2, r.2)
  ∧ ∃ m, ∀ k, (m ≤ k)%nat →
      run (fetch_from_cache_step Sample.loads Sample.gh) k FC_created r.2
      = (["0"; "1"; "2"], Stopped, FC_finished, r.2).
Proof.
  intros w0 r.
  assert (H1 : cache w0 = Some ["[0]"]) by reflexivity.
  assert (H2 : assemble Sample.loads ["[0]"] = (["0"], Stopped)) by reflexivity.
  assert (H3 : r = (["1"; "2"], Stopped, r.1.2, r.2)) by (vm_compute; reflexivity).
  split; [exact H1|]. split; [exact H2|]. split; [exact H3|].
  exact (replay_after_a_second_fetch Sample.loads Sample.gh (Some Sample.from_date)
           w0 r.2 ["[0]"] ["0"] ["1"; "2"] 20 r.1.2 H1 H2 H3).
Defined.

Lemma replay_stops_at_bad_page_witness :
  let w := Sample.world [] (Some ["[1]"; "oops"; "[2]"]) [] in
  cache w = Some (["[1]"] ++ "oops" :: ["[2]"])%list
  ∧ assemble Sample.loads ["[1]"] = (["1"], Stopped)
  ∧ Sample.loads "oops" = inl ValueError
  ∧ ∃ m, ∀ k, (m ≤ k)%nat →
      run (fetch_from_cache_step Sample.loads Sample.gh) k FC_created w
      = (["1"], Raised ValueError, FC_finished, w).
Proof.
  intros w.
  assert (H1 : cache w = Some (["[1]"] ++ "oops" :: ["[2]"])%list) by reflexivity.
  assert (H2 : assemble Sample.loads ["[1]"] = (["1"], Stopped)) by reflexivity.
  assert (H3 : Sample.loads "oops" = inl ValueError) by reflexivity.
  split; [exact H1|]. split; [exact H2|]. split; [exact H3|].
  exact (replay_stops_at_bad_page Sample.loads Sample.gh w ["[1]"] ["[2]"] "oops"
           ["1"] ValueError H1 H2 H3).
Defined.

(** * Properties of the command *)

Section CommandFacts.
Context {item : Type}.
Variable json_loads : string → exn + list item.
Variable json_dumps : item → string.
Variable str_to_datetime : string → exn + datetime.
Variable expanduser : string → string.
Variable join : string → string → string.
Variable is_ioerror : exn → bool.
Variable recover : list string → list string.
Variable accepts : nat → string → bool.
Variable write_error : nat → string → exn.

Abbreviation loop := (run_loop json_loads json_dumps is_ioerror recover accepts write_error).
Abbreviation command_run :=
  (GitHubCommand_run json_loads json_dumps is_ioerror recover accepts write_error).

(** With a sink that takes everything, the loop does what driving the
    generator does, and writes each item it receives. *)
Lemma run_loop_follows_run (self : GitHub) (n : nat)
    (g g' : fetch_state + fetch_from_cache_state) (c : CmdState)
    (ys : list item) (st : status) (w' : State) :
  (∀ k s, accepts k s = true) →
  run (issues_step json_loads self) n g (world c) = (ys, st, g', w') →
  loop self n g c
  = let c' := {| world := w';
                 written := (written c ++ output_of json_dumps ys)%list;
                 write_calls := (write_calls c + 2 * List.length ys)%nat;
                 recoveries := recoveries c |} in
    match st with
    | Running => (Unfinished, c')
    | Stopped => (Returned, c')
    | Raised e => handle is_ioerror recover (FromBackend e) c'
    end.
Proof.
  intros Hacc. revert g c ys. induction n as [|n IH]; intros g c ys Hrun.
  - simpl in Hrun. injection Hrun as <- <- <- <-. simpl.
    rewrite app_nil_r, Nat.add_0_r. by destruct c.
  - rewrite run_S in Hrun. cbn [run_loop].
    destruct (issues_step json_loads self g (world c)) as [[sig g1] w1].
    destruct sig as [issue| |e|].
    + destruct (run _ n g1 w1) as [[[ys1 st1] g2] w2] eqn:Hrun1.
      injection Hrun as <- <- <- <-.
      unfold outfile_write. simpl. rewrite !Hacc.
      match goal with
      | |- context [loop self n g1 ?c2] => rewrite (IH g1 c2 ys1 Hrun1)
      end. simpl.
      rewrite <- !List.app_assoc. simpl.
      replace (write_calls c + S (List.length ys1 + S (List.length ys1 + 0)))%nat
        with (S (S (write_calls c + (List.length ys1 + (List.length ys1 + 0)))))%nat by lia.
      done.
    + injection Hrun as <- <- <- <-. simpl. rewrite app_nil_r, Nat.add_0_r. done.
    + injection Hrun as <- <- <- <-. simpl. rewrite app_nil_r, Nat.add_0_r. done.
    + apply (IH g1 (set_world w1 c) ys Hrun).
Qed.

(** X16.  A run that goes well: when the generator the command iterates
    yields [ys] and stops, and the output file takes every write, [run]
    returns, has written each item followed by a newline, in order, and
    has not called [recover]. *)
Theorem command_writes_every_item (self : GitHubCommand) (n : nat) (c : CmdState)
    (ys : list item) (g' : fetch_state + fetch_from_cache_state) (w' : State) :
  (∀ k s, accepts k s = true) →
  run (issues_step json_loads (backend self)) n (command_issues self) (world c)
  = (ys, Stopped, g', w') →
  command_run self n c
  = (Returned,
     {| world := w';
        written := (written c ++ output_of json_dumps ys)%list;
        write_calls := (write_calls c + 2 * List.length ys)%nat;
        recoveries := recoveries c |}).
Proof.
  intros Hacc Hrun. unfold GitHubCommand_run.
  by rewrite (run_loop_follows_run _ _ _ _ _ _ _ _ Hacc Hrun).
Qed.

(** X17.  A failure of the backend that is not an [IOError], with a
    cache configured: [run] raises [RuntimeError] after it has written
    the items received before the failure, and calls [recover] once, on
    the store as the failed fetch left it. *)
Theorem command_recovers_cache (self : GitHubCommand) (n : nat) (c : CmdState)
    (ys : list item) (g' : fetch_state + fetch_from_cache_state) (w' : State)
    (e : exn) (entries : list string) :
  (∀ k s, accepts k s = true) →
  run (issues_step json_loads (backend self)) n (command_issues self) (world c)
  = (ys, Raised e, g', w') →
  is_ioerror e = false →
  cache w' = Some entries →
  command_run self n c
  = (RuntimeError (FromBackend e),
     {| world := {| net := net w'; clock := clock w'; trace := trace w';
                    cache := Some (recover entries); cache_queue := cache_queue w' |};
        written := (written c ++ output_of json_dumps ys)%list;
        write_calls := (write_calls c + 2 * List.length ys)%nat;
        recoveries := S (recoveries c) |}).
Proof.
  intros Hacc Hrun Hio Hs. unfold GitHubCommand_run.
  rewrite (run_loop_follows_run _ _ _ _ _ _ _ _ Hacc Hrun). unfold handle. simpl.
  by rewrite Hio, Hs.
Qed.

(** X18.  A failure of the backend that is an [IOError], as the
    exceptions of the transport are: [run] raises [RuntimeError] without
    calling [recover], and the store stays as the failed fetch left
    it, with the pages flushed before the failure. *)
Theorem command_keeps_store_on_ioerror (self : GitHubCommand) (n : nat) (c : CmdState)
    (ys : list item) (g' : fetch_state + fetch_from_cache_state) (w' : State) (e : exn) :
  (∀ k s, accepts k s = true) →
  run (issues_step json_loads (backend self)) n (command_issues self) (world c)
  = (ys, Raised e, g', w') →
  is_ioerror e = true →
  command_run self n c
  = (RuntimeError (FromBackend e),
     {| world := w';
        written := (written c ++ output_of json_dumps ys)%list;
        write_calls := (write_calls c + 2 * List.length ys)%nat;
        recoveries := recoveries c |}).
Proof.
  intros Hacc Hrun Hio. unfold GitHubCommand_run.
  rewrite (run_loop_follows_run _ _ _ _ _ _ _ _ Hacc Hrun). unfold handle. simpl.
  by rewrite Hio.
Qed.

(** X19.  When [recover] is called, for any output file: at most once,
    and exactly when [run] raises for an exception that is not an
    [IOError] while a cache is configured, whether the exception came
    out of the backend or out of [outfile.write].  It is not called
    when [run] returns, nor when the exception is an [IOError]. *)
Theorem command_recover_policy (self : GitHub) (fuel : nat)
    (g : fetch_state + fetch_from_cache_state) (c : CmdState) :
  let '(res, c') := loop self fuel g c in
  recoveries c'
  = (recoveries c
     + match res with
       | RuntimeError e =>
           if is_ioerror (caught e) then 0
           else match cache (world c') with Some _ => 1 | None => 0 end
       | _ => 0
       end)%nat.
Proof.
  assert (Hhandle : ∀ e c1,
    let '(res, c') := handle is_ioerror recover e c1 in
    recoveries c'
    = (recoveries c1
       + match res with
         | RuntimeError e =>
             if is_ioerror (caught e) then 0
             else match cache (world c') with Some _ => 1 | None => 0 end
         | _ => 0
         end)%nat).
  { intros e c1. unfold handle.
    destruct (is_ioerror (caught e)) eqn:Hio; [rewrite Hio; lia|].
    destruct (cache (world c1)) eqn:Hs; rewrite Hio; simpl; [lia|]. rewrite Hs. lia. }
  assert (Hwrite : ∀ s c1,
    recoveries (outfile_write accepts write_error s c1).2 = recoveries c1).
  { intros s c1. unfold outfile_write. by destruct (accepts _ _). }
  revert g c. induction fuel as [|fuel IH]; intros g c; [simpl; lia|].
  cbn [run_loop].
  destruct (issues_step json_loads self g (world c)) as [[sig g1] w1].
  destruct sig as [issue| |e|].
  - destruct (outfile_write accepts write_error (json_dumps issue) (set_world w1 c))
      as [o1 c1] eqn:E1.
    apply (f_equal (λ x, recoveries x.2)) in E1 as H1. rewrite Hwrite in H1. simpl in H1.
    destruct o1 as [e1|].
    { specialize (Hhandle (FromSink e1) c1). rewrite <- H1 in Hhandle. exact Hhandle. }
    destruct (outfile_write accepts write_error (String "010" "") c1) as [o2 c2] eqn:E2.
    apply (f_equal (λ x, recoveries x.2)) in E2 as H2. rewrite Hwrite in H2. simpl in H2.
    destruct o2 as [e2|].
    { specialize (Hhandle (FromSink e2) c2). rewrite <- H2, <- H1 in Hhandle. exact Hhandle. }
    specialize (IH g1 c2). rewrite <- H2, <- H1 in IH. exact IH.
  - simpl. lia.
  - exact (Hhandle (FromBackend e) (set_world w1 c)).
  - specialize (IH g1 (set_world w1 c)).
    by destruct (loop self fuel g1 _) as [res c'].
Qed.

(** X20.  Replay asked of a backend without a cache: [run] raises
    [RuntimeError] for the [CacheError], writes nothing and changes
    nothing. *)
Theorem command_fetch_cache_without_cache (self : GitHubCommand) (fuel : nat) (c : CmdState) :
  arg_fetch_cache (parsed_args self) = true →
  cache (world c) = None →
  command_run self (S fuel) c
  = (RuntimeError (FromBackend (CacheError "cache instance was not provided")), c).
Proof.
  intros Hflag Hs. unfold GitHubCommand_run, command_issues. rewrite Hflag.
  cbn [run_loop issues_step fetch_from_cache_step]. unfold fetch_from_cache_enter.
  rewrite Hs. unfold handle. simpl. destruct (is_ioerror _); rewrite ?Hs; by destruct c.
Qed.

Abbreviation command_init := (GitHubCommand_init str_to_datetime expanduser join).

(** X21.  The command never sets a base URL: whatever the arguments,
    the client of its backend addresses [https://api.github.com]. *)
Theorem command_uses_public_api (args : ParsedArgs) (self : GitHubCommand)
    (start : option datetime) :
  command_init args = inr self →
  ∃ params,
    _get_issues_url (client (backend self)) start
    = "https://api.github.com/repos/" +:+ arg_owner args +:+ "/" +:+ arg_repository args
      +:+ "/issues" +:+ params.
Proof.
  unfold GitHubCommand_init. destruct (str_to_datetime _); [done|].
  intros [= <-]. unfold _get_issues_url, _get_url. simpl.
  destruct start as [startdate|]; eexists; rewrite !string_app_assoc; reflexivity.
Qed.

(** X22.  The cache of a repository is found under the owner and the
    repository joined by an underscore, so two repositories can share a
    cache: owner [a_b] with repository [c], and owner [a] with
    repository [b_c]. *)
Theorem command_cache_path_collision (args : ParsedArgs) (a b c : string) :
  let args1 :=
    {| arg_owner := a +:+ "_" +:+ b; arg_repository := c; arg_token := arg_token args;
       arg_from_date := arg_from_date args; arg_no_cache := arg_no_cache args;
       arg_cache_path := arg_cache_path args; arg_clean_cache := arg_clean_cache args;
       arg_fetch_cache := arg_fetch_cache args |} in
  let args2 :=
    {| arg_owner := a; arg_repository := b +:+ "_" +:+ c; arg_token := arg_token args;
       arg_from_date := arg_from_date args; arg_no_cache := arg_no_cache args;
       arg_cache_path := arg_cache_path args; arg_clean_cache := arg_clean_cache args;
       arg_fetch_cache := arg_fetch_cache args |} in
  match command_init args1, command_init args2 with
  | inr self1, inr self2 => cmd_cache self1 = cmd_cache self2
  | inl e1, inl e2 => e1 = e2
  | _, _ => False
  end.
Proof.
  unfold GitHubCommand_init. simpl. destruct (str_to_datetime _); [done|]. simpl.
  by rewrite string_app_assoc.
Qed.

End CommandFacts.

Lemma command_writes_every_item_witness :
  let c := SampleCommand.start
    (Sample.world [(Sample.url1, Sample.page1); (Sample.url2, Sample.page2)] (Some []) []) in
  let self := SampleCommand.command false in
  let r := run (issues_step Sample.loads (backend self)) 20 (command_issues self) (world c) in
  (∀ k s, SampleCommand.accepts_all k s = true)
  ∧ r = (["1"; "2"], Stopped, r.1.2, r.2)
  ∧ GitHubCommand_run Sample.loads SampleCommand.dumps SampleCommand.is_ioerror
      SampleCommand.restore SampleCommand.accepts_all SampleCommand.closed_file self 20 c
    = (Returned,
       {| world := r.2;
          written := (written c ++ output_of SampleCommand.dumps ["1"; "2"])%list;
          write_calls := (write_calls c + 2 * 2)%nat;
          recoveries := recoveries c |}).
Proof.
  intros c self r.
  assert (H1 : ∀ k s, SampleCommand.accepts_all k s = true) by done.
  assert (H2 : r = (["1"; "2"], Stopped, r.1.2, r.2)) by (vm_compute; reflexivity).
  split; [exact H1|]. split; [exact H2|].
  exact (command_writes_every_item Sample.loads SampleCommand.dumps SampleCommand.is_ioerror
           SampleCommand.restore SampleCommand.accepts_all SampleCommand.closed_file
           self 20 c ["1"; "2"] r.1.2 r.2 H1 H2).
Defined.

Lemma command_recovers_cache_witness :
  let c := SampleCommand.start
    (Sample.world [(Sample.url1, Sample.page1_no_last); (Sample.url2, Sample.page2)]
       (Some []) []) in
  let self := SampleCommand.command false in
  let r := run (issues_step Sample.loads (backend self)) 20 (command_issues self) (world c) in
  (∀ k s, SampleCommand.accepts_all k s = true)
  ∧ r = (["1"], Raised TypeError, r.1.2, r.2)
  ∧ SampleCommand.is_ioerror TypeError = false
  ∧ cache r.2 = Some ["[1]"]
  ∧ GitHubCommand_run Sample.loads SampleCommand.dumps SampleCommand.is_ioerror
      SampleCommand.restore SampleCommand.accepts_all SampleCommand.closed_file self 20 c
    = (RuntimeError (FromBackend TypeError),
       {| world := {| net := net r.2; clock := clock r.2; trace := trace r.2;
                      cache := Some (SampleCommand.restore ["[1]"]);
                      cache_queue := cache_queue r.2 |};
          written := (written c ++ output_of SampleCommand.dumps ["1"])%list;
          write_calls := (write_calls c + 2 * 1)%nat;
          recoveries := S (recoveries c) |}).
Proof.
  intros c self r.
  assert (H1 : ∀ k s, SampleCommand.accepts_all k s = true) by done.
  assert (H2 : r = (["1"], Raised TypeError, r.1.2, r.2)) by (vm_compute; reflexivity).
  assert (H3 : SampleCommand.is_ioerror TypeError = false) by reflexivity.
  assert (H4 : cache r.2 = Some ["[1]"]) by (vm_compute; reflexivity).
  split; [exact H1|]. split; [exact H2|]. split; [exact H3|]. split; [exact H4|].
  exact (command_recovers_cache Sample.loads SampleCommand.dumps SampleCommand.is_ioerror
           SampleCommand.restore SampleCommand.accepts_all SampleCommand.closed_file
           self 20 c ["1"] r.1.2 r.2 TypeError ["[1]"] H1 H2 H3 H4).
Defined.

Lemma command_keeps_store_on_ioerror_witness :
  let c := SampleCommand.start
    (Sample.world [(Sample.url1, Sample.page1)] (Some []) []) in
  let self := SampleCommand.command false in
  let r := run (issues_step Sample.loads (backend self)) 20 (command_issues self) (world c) in
  (∀ k s, SampleCommand.accepts_all k s = true)
  ∧ r = (["1"], Raised (RequestException "not found"), r.1.2, r.2)
  ∧ SampleCommand.is_ioerror (RequestException "not found") = true
  ∧ cache r.2 = Some ["[1]"]
  ∧ GitHubCommand_run Sample.loads SampleCommand.dumps SampleCommand.is_ioerror
      SampleCommand.restore SampleCommand.accepts_all SampleCommand.closed_file self 20 c
    = (RuntimeError (FromBackend (RequestException "not found")),
       {| world := r.2;
          written := (written c ++ output_of SampleCommand.dumps ["1"])%list;
          write_calls := (write_calls c + 2 * 1)%nat;
          recoveries := recoveries c |}).
Proof.
  intros c self r.
  assert (H1 : ∀ k s, SampleCommand.accepts_all k s = true) by done.
  assert (H2 : r = (["1"], Raised (RequestException "not found"), r.1.2, r.2))
    by (vm_compute; reflexivity).
  assert (H3 : SampleCommand.is_ioerror (RequestException "not found") = true)
    by reflexivity.
  assert (H4 : cache r.2 = Some ["[1]"]) by (vm_compute; reflexivity).
  split; [exact H1|]. split; [exact H2|]. split; [exact H3|]. split; [exact H4|].
  exact (command_keeps_store_on_ioerror Sample.loads SampleCommand.dumps
           SampleCommand.is_ioerror SampleCommand.restore SampleCommand.accepts_all
           SampleCommand.closed_file self 20 c ["1"] r.1.2 r.2 (RequestException "not found") H1 H2 H3).
Defined.

Lemma command_fetch_cache_without_cache_witness :
  let c := SampleCommand.start (Sample.world [] None []) in
  let self := SampleCommand.command true in
  arg_fetch_cache (parsed_args self) = true
  ∧ cache (world c) = None
  ∧ GitHubCommand_run Sample.loads SampleCommand.dumps SampleCommand.is_ioerror
      SampleCommand.restore SampleCommand.accepts_all SampleCommand.closed_file self 5 c
    = (RuntimeError (FromBackend (CacheError "cache instance was not provided")), c).
Proof.
  intros c self. split; [reflexivity|]. split; [reflexivity|].
  exact (command_fetch_cache_without_cache Sample.loads SampleCommand.dumps
           SampleCommand.is_ioerror SampleCommand.restore SampleCommand.accepts_all
           SampleCommand.closed_file self 4 c eq_refl eq_refl).
Defined.

(** An output file that is closed while the command runs: its third
    write raises [ValueError], which is no [IOError], so the second
    handler calls [recover]. *)
Example command_recovers_on_closed_file :
  let c := SampleCommand.start
    (Sample.world [(Sample.url1, Sample.page1); (Sample.url2, Sample.page2)] (Some []) []) in
  let r := GitHubCommand_run Sample.loads SampleCommand.dumps SampleCommand.is_ioerror
             SampleCommand.restore SampleCommand.accepts_two SampleCommand.closed_file
             (SampleCommand.command false) 20 c in
  r.1 = RuntimeError (FromSink ValueError)
  ∧ written r.2 = ["1"; String "010" ""]
  ∧ recoveries r.2 = 1%nat
  ∧ cache (world r.2) = Some ["[0]"].
Proof. vm_compute. done. Qed.

Lemma command_uses_public_api_witness :
  GitHubCommand_init SampleCommand.to_datetime SampleCommand.home SampleCommand.path_join
    (SampleCommand.args false)
  = inr (SampleCommand.command false)
  ∧ ∃ params,
      _get_issues_url (client (backend (SampleCommand.command false))) None
      = "https://api.github.com/repos/" +:+ "octo" +:+ "/" +:+ "repo" +:+ "/issues" +:+ params.
Proof.
  assert (H1 : GitHubCommand_init SampleCommand.to_datetime SampleCommand.home
                 SampleCommand.path_join (SampleCommand.args false)
               = inr (SampleCommand.command false)) by reflexivity.
  split; [exact H1|].
  exact (command_uses_public_api SampleCommand.to_datetime SampleCommand.home
           SampleCommand.path_join (SampleCommand.args false) (SampleCommand.command false)
           None H1).
Defined.

(** * Pages are never empty, and never fetched ahead *)

(** X6.  The client never yields an empty page: whatever it hands to
    its consumer is non-empty text. *)
Theorem get_issues_never_yields_empty (self : GitHubClient) (n : nat)
    (g : get_issues_state) (w : State) :
  Forall (λ raw, raw ≠ "") (run (get_issues_next self) n g w).1.1.1.
Proof.
  revert g w. induction n as [|n IH]; intros g w; [by constructor|].
  rewrite run_S.
  destruct (get_issues_next self g w) as [[sig g1] w1] eqn:Hstep.
  pose proof (get_issues_next_outcome _ _ _ _ _ _ Hstep) as Hout.
  destruct sig as [raw| |e|]; simpl; try by constructor.
  - destruct Hout as (r & page & lp & _ & _ & -> & Htext).
    specialize (IH g1 w1).
    destruct (run (get_issues_next self) n g1 w1) as [[[ys st] g2] w2].
    by constructor.
  - done.
Qed.

Section Demand.
Context {item : Type} (json_loads : string → exn + list item) (self : GitHub).

(** X12.  The fetch never reads ahead, and never stores an empty page.
    While it is suspended after its first step, it has requested exactly
    as many pages as it has pushed to the queue; once it has ended it
    has requested at most one more; and every page it pushed is
    non-empty text. *)
Theorem fetch_requests_on_demand (from_date : option datetime) (w0 : State) (n : nat) :
  let '(ys, st, g, w) := run (fetch_step json_loads self) n (F_created from_date) w0 in
  ∃ evs, trace w = (trace w0 ++ evs)%list
    ∧ Forall (λ raw, raw ≠ "") (pushes_of evs)
    ∧ match g with
      | F_finished =>
          (List.length (requests_of evs) ≤ S (List.length (pushes_of evs)))%nat
      | _ => List.length (requests_of evs) = List.length (pushes_of evs)
      end.
Proof.
  set (I := λ (g : fetch_state (item := item)) (w : State),
    ∃ evs, trace w = (trace w0 ++ evs)%list
      ∧ Forall (λ raw, raw ≠ "") (pushes_of evs)
      ∧ match g with
        | F_finished =>
            (List.length (requests_of evs) ≤ S (List.length (pushes_of evs)))%nat
        | _ => List.length (requests_of evs) = List.length (pushes_of evs)
        end).
  assert (Hstep : ∀ g w, I g w →
            I (fetch_step json_loads self g w).1.2 (fetch_step json_loads self g w).2);
    [|pose proof (run_preserves (fetch_step json_loads self) I Hstep n
                    (F_created from_date) w0) as H].
  2:{ destruct (run _ n _ w0) as [[[ys st] g] w]. apply H.
      exists []. by rewrite app_nil_r. }
  - clear. unfold I. intros g w (evs & Ht & Hne & Hcount).
    destruct g as [d|gi|gi raw [|issue issues]|]; simpl.
    + exists (evs ++ [EvPurge])%list. rewrite requests_of_app, pushes_of_app. simpl.
      rewrite !app_nil_r. split_and!; try done.
      rewrite Ht. by rewrite <- List.app_assoc.
    + destruct (get_issues_next (client self) gi w) as [[sig gi'] w1] eqn:Hstep.
      pose proof (get_issues_next_effects _ _ _ _ _ _ Hstep)
        as (_ & _ & _ & _ & evs1 & Ht1 & Hreq1 & Hpush1).
      pose proof (get_issues_next_outcome _ _ _ _ _ _ Hstep) as Hout.
      assert (Hone : (List.length (next_request (client self) gi) ≤ 1)%nat).
      { destruct gi as [start|r page lp|]; simpl; [lia| |lia].
        destruct (links r !! "next"); simpl; lia. }
      assert (Hbase : trace w1 = (trace w0 ++ evs ++ evs1)%list).
      { rewrite Ht1, Ht. by rewrite <- List.app_assoc. }
      destruct sig as [raw| |e|]; simpl.
      * destruct Hout as (r & page & lp & Hans & _ & -> & Htext).
        assert (List.length (next_request (client self) gi) = 1%nat) as Hlen.
        { destruct (next_request (client self) gi) as [|q [|q' l]]; simpl in *; done. }
        rewrite fetch_page_effects.
        assert (Hinv : ∃ evs2,
          (trace w1 ++ [EvPush (text r); EvFlush])%list = (trace w0 ++ evs2)%list
          ∧ Forall (λ raw, raw ≠ "") (pushes_of evs2)
          ∧ List.length (requests_of evs2) = List.length (pushes_of evs2)).
        { exists (evs ++ evs1 ++ [EvPush (text r); EvFlush])%list.
          rewrite !requests_of_app, !pushes_of_app, Hreq1, Hpush1. simpl.
          rewrite app_nil_r. split_and!.
          - rewrite Hbase. by rewrite <- !List.app_assoc.
          - apply Forall_app. split; [done|]. by repeat constructor.
          - rewrite !length_app, Hlen. simpl. lia. }
        destruct Hinv as (evs2 & Ht2 & Hne2 & Hc2).
        destruct (json_loads (text r)); simpl; exists evs2; split_and!; try done. lia.
      * exists (evs ++ evs1)%list.
        rewrite requests_of_app, pushes_of_app, Hreq1, Hpush1, app_nil_r, length_app.
        split_and!; try done. lia.
      * exists (evs ++ evs1)%list.
        rewrite requests_of_app, pushes_of_app, Hreq1, Hpush1, app_nil_r, length_app.
        split_and!; try done. lia.
      * done.
    + by exists evs.
    + by exists evs.
    + by exists evs.
Qed.

End Demand.
